(** * Agent orchestration loop of the Mantle AI Agent Builder

    A shallow embedding of [src/agent/main.py]: the tool catalogue
    [TOOL_DEFINITIONS], the flow compilation done by [build_system_prompt] and
    [chat_with_agent], the tool invoker [execute_tool] and the conversation
    driver [process_agent_conversation], followed by the properties of the
    specification that were checked against them.

    Python values are dynamically typed; the fragment of their behaviour the
    program relies on ([in], item assignment, subscripting, [str.replace],
    truthiness) is written out below, including the exceptions Python raises
    when an operand has the wrong type.  The outside world (the JSON codec,
    the LLM provider and the HTTP endpoints) is a record of oracles; every
    theorem holds for all of them. *)

From stdpp Require Import gmap strings pretty list fin_maps.

Set Default Proof Using "Type".
Set Warnings "-clear-no-such-hyp".
Local Open Scope string_scope.
Local Open Scope list_scope.

(** ** JSON values, as [json.loads] produces them *)

#[warnings="-register-all"]
Inductive json :=
  | JNull
  | JBool (b : bool)
  | JInt (z : Z)
  | JFloat (literal : string)
  | JStr (s : string)
  | JList (l : list json)
  | JDict (d : gmap string json).

(** ** Exceptions that can cross a function boundary in [main.py] *)

Inductive exn :=
  | JSONDecodeError (doc : string)
  | KeyError (key : string)
  | IndexError
  | TypeError
  | ValueError (msg : string)
  | ValidationError
  | ProviderError (msg : string)
  | HTTPException (status_code : Z) (detail : string).

Inductive outcome (A : Type) :=
  | Ret (a : A)
  | Raise (e : exn).
Arguments Ret {A} a.
Arguments Raise {A} e.

Definition obind {A B} (o : outcome A) (k : A → outcome B) : outcome B :=
  match o with
  | Ret a => k a
  | Raise e => Raise e
  end.

(** ** Python string operations *)

(** [needle in haystack] for two [str]. *)
Fixpoint str_contains (needle haystack : string) : bool :=
  String.prefix needle haystack ||
  match haystack with
  | EmptyString => false
  | String _ rest => str_contains needle rest
  end.

(** [s.replace(old, new)] for a non-empty [old]: a left-to-right scan that
    replaces non-overlapping occurrences; [skip] counts the characters of a
    matched occurrence that are still to be dropped. *)
Fixpoint str_replace_scan (old new : string) (skip : nat) (s : string) : string :=
  match s with
  | EmptyString => EmptyString
  | String c rest =>
      match skip with
      | S k => str_replace_scan old new k rest
      | O =>
          if String.prefix old s
          then new +:+ str_replace_scan old new (String.length old - 1) rest
          else String c (str_replace_scan old new 0 rest)
      end
  end.

(** With an empty [old], Python puts [new] before every character and at the
    end. *)
Fixpoint str_intersperse (new s : string) : string :=
  match s with
  | EmptyString => new
  | String c rest => new +:+ String c (str_intersperse new rest)
  end.

Definition str_replace (old new s : string) : string :=
  match old with
  | EmptyString => str_intersperse new s
  | String _ _ => str_replace_scan old new 0 s
  end.

(** Truthiness of an [Optional[str]]: [None] and the empty string are false. *)
Definition truthy (o : option string) : bool :=
  match o with
  | None => false
  | Some EmptyString => false
  | Some (String _ _) => true
  end.

(** ** Python container operations on a decoded JSON value *)

Definition is_JStr (k : string) (v : json) : bool :=
  match v with
  | JStr s => bool_decide (s = k)
  | _ => false
  end.

(** [key in obj] where [key] is a [str]. *)
Definition py_contains (key : string) (obj : json) : outcome bool :=
  match obj with
  | JDict d => Ret (bool_decide (is_Some (d !! key)))
  | JList l => Ret (existsb (is_JStr key) l)
  | JStr s => Ret (str_contains key s)
  | JNull | JBool _ | JInt _ | JFloat _ => Raise TypeError
  end.

(** [obj[key] = value] where [key] is a [str]. *)
Definition py_setitem (key : string) (value : json) (obj : json) : outcome json :=
  match obj with
  | JDict d => Ret (JDict (<[key := value]> d))
  | _ => Raise TypeError
  end.

(** [obj[key]] where [key] is a [str]. *)
Definition py_getitem (key : string) (obj : json) : outcome json :=
  match obj with
  | JDict d =>
      match d !! key with
      | Some v => Ret v
      | None => Raise (KeyError key)
      end
  | _ => Raise TypeError
  end.

(** [s.replace(old, new)] where [new] is an arbitrary value: anything but a
    [str] is a [TypeError]. *)
Definition py_replace (old : string) (new : json) (s : string) : outcome string :=
  match new with
  | JStr v => Ret (str_replace old v s)
  | _ => Raise TypeError
  end.

(** ** The tool catalogue *)

Record ParamSchema := {
  p_type : string;
  p_items : option string;
  p_description : string
}.

Record ToolDef := {
  name : string;
  description : string;
  properties : list (string * ParamSchema);
  required : list string;
  endpoint : string;
  method : string
}.

Definition str_param (d : string) : ParamSchema :=
  {| p_type := "string"; p_items := None; p_description := d |}.
Definition num_param (d : string) : ParamSchema :=
  {| p_type := "number"; p_items := None; p_description := d |}.
Definition str_array_param (d : string) : ParamSchema :=
  {| p_type := "array"; p_items := Some "string"; p_description := d |}.

Definition backend : string := "https://mantlebackend-739298578243.us-central1.run.app".

Definition transfer_def : ToolDef := {|
  name := "transfer";
  description := "Transfer tokens from one address to another. Requires privateKey, toAddress, amount, and tokenAddress.";
  properties := [
    ("privateKey", str_param "Private key of the sender wallet");
    ("toAddress", str_param "Recipient wallet address");
    ("amount", str_param "Amount of tokens to transfer");
    ("tokenAddress", str_param "Contract address of the token")];
  required := ["privateKey"; "toAddress"; "amount"; "tokenAddress"];
  endpoint := backend +:+ "/transfer";
  method := "POST" |}.

Definition swap_def : ToolDef := {|
  name := "swap";
  description := "Swap one token for another. Requires privateKey, tokenIn, tokenOut, amountIn, and slippageTolerance.";
  properties := [
    ("privateKey", str_param "Private key of the wallet");
    ("tokenIn", str_param "Input token contract address");
    ("tokenOut", str_param "Output token contract address");
    ("amountIn", str_param "Amount of input tokens");
    ("slippageTolerance", num_param "Slippage tolerance percentage")];
  required := ["privateKey"; "tokenIn"; "tokenOut"; "amountIn"; "slippageTolerance"];
  endpoint := backend +:+ "/swap";
  method := "POST" |}.

Definition get_balance_def : ToolDef := {|
  name := "get_balance";
  description := "Get MNT balance of a wallet address. Requires only the wallet address.";
  properties := [("address", str_param "Wallet address to check balance")];
  required := ["address"];
  endpoint := backend +:+ "/balance/{address}";
  method := "GET" |}.

Definition deploy_erc20_def : ToolDef := {|
  name := "deploy_erc20";
  description := "Deploy a new ERC-20 token. Requires privateKey, name, symbol, and initialSupply.";
  properties := [
    ("privateKey", str_param "Private key of the deployer wallet");
    ("name", str_param "Token name");
    ("symbol", str_param "Token symbol");
    ("initialSupply", str_param "Initial token supply")];
  required := ["privateKey"; "name"; "symbol"; "initialSupply"];
  endpoint := backend +:+ "/deploy-token";
  method := "POST" |}.

Definition deploy_erc721_def : ToolDef := {|
  name := "deploy_erc721";
  description := "Deploy a new ERC-721 NFT collection. Requires privateKey, name, and symbol.";
  properties := [
    ("privateKey", str_param "Private key of the deployer wallet");
    ("name", str_param "NFT collection name");
    ("symbol", str_param "NFT collection symbol")];
  required := ["privateKey"; "name"; "symbol"];
  endpoint := backend +:+ "/create-nft-collection";
  method := "POST" |}.

Definition create_dao_def : ToolDef := {|
  name := "create_dao";
  description := "Create a new DAO (Decentralized Autonomous Organization). Requires privateKey, name, votingPeriod, and quorumPercentage.";
  properties := [
    ("privateKey", str_param "Private key of the DAO creator");
    ("name", str_param "DAO name");
    ("votingPeriod", str_param "Voting period in seconds");
    ("quorumPercentage", str_param "Quorum percentage required for voting")];
  required := ["privateKey"; "name"; "votingPeriod"; "quorumPercentage"];
  endpoint := backend +:+ "/create-dao";
  method := "POST" |}.

Definition airdrop_def : ToolDef := {|
  name := "airdrop";
  description := "Airdrop tokens to multiple recipients. Requires privateKey, recipients (list of addresses), and amount per recipient.";
  properties := [
    ("privateKey", str_param "Private key of the sender wallet");
    ("recipients", str_array_param "List of recipient wallet addresses");
    ("amount", str_param "Amount to send to each recipient")];
  required := ["privateKey"; "recipients"; "amount"];
  endpoint := backend +:+ "/airdrop";
  method := "POST" |}.

Definition fetch_price_def : ToolDef := {|
  name := "fetch_price";
  description := "Fetch the current price of any cryptocurrency or token. Requires a query string.";
  properties := [
    ("query", str_param "Query string for token price (e.g., 'bitcoin current price')")];
  required := ["query"];
  endpoint := backend +:+ "/token-price";
  method := "POST" |}.

Definition deposit_yield_def : ToolDef := {|
  name := "deposit_yield";
  description := "Create a deposit with yield prediction. Requires privateKey, tokenAddress, depositAmount, and apyPercent.";
  properties := [
    ("privateKey", str_param "Private key of the depositor wallet");
    ("tokenAddress", str_param "Token contract address to deposit");
    ("depositAmount", str_param "Amount to deposit");
    ("apyPercent", num_param "Annual Percentage Yield (APY) percentage")];
  required := ["privateKey"; "tokenAddress"; "depositAmount"; "apyPercent"];
  endpoint := backend +:+ "/yield";
  method := "POST" |}.

Definition wallet_analytics_def : ToolDef := {|
  name := "wallet_analytics";
  description := "Get wallet analytics including ERC-20 token balances. Requires wallet address.";
  properties := [("address", str_param "Wallet address to analyze")];
  required := ["address"];
  endpoint := backend +:+ "/api/balance/erc20";
  method := "POST" |}.

Definition catalogue_entries : list (string * ToolDef) := [
  ("transfer", transfer_def);
  ("swap", swap_def);
  ("get_balance", get_balance_def);
  ("deploy_erc20", deploy_erc20_def);
  ("deploy_erc721", deploy_erc721_def);
  ("create_dao", create_dao_def);
  ("airdrop", airdrop_def);
  ("fetch_price", fetch_price_def);
  ("deposit_yield", deposit_yield_def);
  ("wallet_analytics", wallet_analytics_def)].

Definition TOOL_DEFINITIONS : gmap string ToolDef := list_to_map catalogue_entries.

(** ["privateKey" in TOOL_DEFINITIONS[name]["parameters"]["properties"]] *)
Definition has_property (key : string) (d : ToolDef) : bool :=
  existsb (λ p, bool_decide (p.1 = key)) (properties d).

(** ** Request and response models *)

Record ToolConnection := {
  tool : string;
  next_tool : option string
}.

Record AgentRequest := {
  tools : list ToolConnection;
  user_message : string;
  private_key : option string
}.

(** One entry of [all_tool_calls]: [{"tool": ..., "parameters": ...}]. *)
Record ToolCallRecord := {
  call_tool : string;
  call_parameters : json
}.

(** The dictionary [execute_tool] returns: [{"success": True, "tool": ...,
    "result": ...}] or [{"success": False, "tool": ..., "error": ...}]. *)
Inductive ToolResult :=
  | ToolSuccess (tool_name : string) (result : json)
  | ToolFailure (tool_name : string) (error : string).

Definition success (r : ToolResult) : bool :=
  match r with
  | ToolSuccess _ _ => true
  | ToolFailure _ _ => false
  end.

Definition result_tool (r : ToolResult) : string :=
  match r with
  | ToolSuccess t _ => t
  | ToolFailure t _ => t
  end.

Definition result_dict (r : ToolResult) : json :=
  match r with
  | ToolSuccess t body =>
      JDict (list_to_map [("success", JBool true); ("tool", JStr t); ("result", body)])
  | ToolFailure t e =>
      JDict (list_to_map [("success", JBool false); ("tool", JStr t); ("error", JStr e)])
  end.

Record AgentResponse := {
  agent_response : string;
  tool_calls : list ToolCallRecord;
  results : list ToolResult
}.

(** ** Provider messages *)

(** A tool-call request of the model: [tool_call.id],
    [tool_call.function.name], [tool_call.function.arguments]. *)
Record ToolCall := {
  tc_id : string;
  tc_name : string;
  tc_arguments : string
}.

(** [response.choices[0].message]; an absent [tool_calls] is the empty list
    (both are false in [if not assistant_message.tool_calls]). *)
Record AssistantMessage := {
  am_content : option string;
  am_tool_calls : list ToolCall
}.

Inductive Message :=
  | SystemMsg (content : string)
  | UserMsg (content : string)
  | AssistantMsg (content : option string) (calls : list ToolCall)
  | ToolMsg (tool_call_id : string) (content : string).

(** An element of the list built by [get_openai_tools]. *)
Record FunctionSchema := {
  fn_name : string;
  fn_description : string;
  fn_properties : list (string * ParamSchema);
  fn_required : list string
}.

(** The arguments of [client.chat.completions.create] that vary; the model
    name and the temperature are constants. *)
Record ChatRequest := {
  req_messages : list Message;
  req_tools : option (list FunctionSchema);
  req_tool_choice : option string
}.

(** What the provider call amounts to: the call, or the access to
    [response.choices[0].message], raises, or there is a message. *)
Inductive ProviderOutcome :=
  | ProviderRaises (msg : string)
  | ProviderReply (m : AssistantMessage).

(** ** Downstream HTTP calls *)

(** A call into [requests] as [execute_tool] writes it: [requests.post(url,
    json=payload)] or [requests.get(url)], the latter without a [json]
    argument.  The record holds the arguments of the call; how [requests]
    puts them on the wire (encoding of the URL, serialisation of the
    payload) is its own business. *)
Record HttpRequest := {
  verb : string;
  url : string;
  payload : option json
}.

(** What [requests.post]/[requests.get], [raise_for_status] and
    [response.json] amount to together: either one of them raises a
    [requests.exceptions.RequestException] (timeout, refused connection,
    error status, undecodable body), or the body decodes.  These are the two
    outcomes lines 271-290 provide for; an exception of another class raised
    inside the [try] would pass line 285 uncaught and is not among them. *)
Inductive HttpOutcome :=
  | RequestException (msg : string)
  | JsonBody (body : json).

(** ** The outside world *)

Inductive Event :=
  | EvChat (req : ChatRequest) (out : ProviderOutcome)
  | EvHttp (req : HttpRequest) (out : HttpOutcome).

(** The oracles answer as a function of everything that happened before, so a
    [World] stands for an arbitrary deterministic environment; quantifying
    over worlds covers every sequence of model replies and endpoint
    behaviours. *)
Record World := {
  json_loads : string → option json;
  json_dumps : json → string;
  chat_completions_create : list Event → ChatRequest → ProviderOutcome;
  http_send : list Event → HttpRequest → HttpOutcome;
  exn_str : exn → string
}.

(** ** Computations: a trace of external calls and exceptions *)

Definition M (A : Type) : Type := list Event → outcome A * list Event.

Definition ret {A} (a : A) : M A := λ tr, (Ret a, tr).
Definition raise {A} (e : exn) : M A := λ tr, (Raise e, tr).
Definition lift {A} (o : outcome A) : M A := λ tr, (o, tr).
Definition bind {A B} (c : M A) (k : A → M B) : M B :=
  λ tr, match c tr with
        | (Ret a, tr') => k a tr'
        | (Raise e, tr') => (Raise e, tr')
        end.

Declare Scope py_scope.
Delimit Scope py_scope with py.
Notation "x <- c ;; k" := (bind c (λ x, k))
  (at level 100, c at next level, right associativity) : py_scope.
Notation "x <~ c ;; k" := (obind c (λ x, k))
  (at level 100, c at next level, right associativity) : py_scope.

(** A Python [for] loop whose body may raise or call out. *)
Fixpoint for_each {A S} (body : S → A → M S) (l : list A) (s : S) : M S :=
  match l with
  | [] => ret s
  | x :: rest => bind (body s x) (for_each body rest)
  end.

(** ** Flow compilation (the loop shared by [build_system_prompt] and
    [chat_with_agent]) *)

(** One iteration of [for conn in ...: unique_tools.add(conn.tool); if
    conn.next_tool: unique_tools.add(conn.next_tool);
    tool_flow[conn.tool] = conn.next_tool]. *)
Definition add_connection (acc : gset string * gmap string string) (conn : ToolConnection)
    : gset string * gmap string string :=
  let unique_tools := acc.1 ∪ {[tool conn]} in
  match next_tool conn with
  | Some nt =>
      if truthy (Some nt)
      then (unique_tools ∪ {[nt]}, <[tool conn := nt]> acc.2)
      else (unique_tools, acc.2)
  | None => (unique_tools, acc.2)
  end.

Definition compile_flow (conns : list ToolConnection) : gset string * gmap string string :=
  foldl add_connection (∅, ∅) conns.

(** [tool_flow] of [build_system_prompt] is iterated with [.items()], so
    there its insertion order is kept: assigning to a key that is present
    changes the value in place, a new key goes to the end. *)
Fixpoint dict_assign (k v : string) (d : list (string * string)) : list (string * string) :=
  match d with
  | [] => [(k, v)]
  | (k', v') :: rest =>
      if bool_decide (k' = k) then (k, v) :: rest else (k', v') :: dict_assign k v rest
  end.

Definition add_flow_item (d : list (string * string)) (conn : ToolConnection)
    : list (string * string) :=
  match next_tool conn with
  | Some nt => if truthy (Some nt) then dict_assign (tool conn) nt d else d
  | None => d
  end.

Definition newline : string := String (Ascii.ascii_of_nat 10) EmptyString.

Definition prompt_header : string :=
  "You are an AI agent for the Mantle blockchain platform. You help users perform blockchain operations using the tools available to you."
  +:+ newline +:+ newline +:+ "AVAILABLE TOOLS:" +:+ newline.

Definition prompt_sequential : string :=
  newline +:+ "SEQUENTIAL EXECUTION INSTRUCTIONS - CRITICAL:" +:+ newline
  +:+ "1. When tools are connected sequentially, you MUST execute ALL tools in the chain" +:+ newline
  +:+ "2. After completing one tool, IMMEDIATELY proceed to call the next tool in the sequence" +:+ newline
  +:+ "3. DO NOT wait for user confirmation between sequential tool calls" +:+ newline
  +:+ "4. Execute all sequential tools in ONE conversation turn" +:+ newline
  +:+ "5. Only provide a final summary after ALL sequential tools have been completed" +:+ newline
  +:+ "6. If you have all the required parameters for the entire sequence, execute all tools immediately" +:+ newline.

Definition prompt_independent : string :=
  newline +:+ "INSTRUCTIONS:" +:+ newline
  +:+ "1. You can perform any of the available operations based on user requests" +:+ newline
  +:+ "2. Ask for required parameters if not provided" +:+ newline
  +:+ "3. Execute the appropriate tool based on user needs" +:+ newline
  +:+ "4. Provide clear results and next steps" +:+ newline.

Definition prompt_rules : string :=
  newline +:+ "IMPORTANT RULES:" +:+ newline
  +:+ "- Only use the tools that are available to you" +:+ newline
  +:+ "- Always ask for required parameters before making tool calls" +:+ newline
  +:+ "- Be conversational and helpful" +:+ newline
  +:+ "- If a privateKey is needed and provided in the context, use it" +:+ newline
  +:+ "- Provide transaction hashes and explorer links when available" +:+ newline
  +:+ "- Explain what each operation does in simple terms" +:+ newline
  +:+ "- For sequential executions, complete the ENTIRE chain before responding" +:+ newline.

Definition tool_line (tool_name : string) : string :=
  match TOOL_DEFINITIONS !! tool_name with
  | Some tool_def => newline +:+ "- " +:+ tool_name +:+ ": " +:+ description tool_def +:+ newline
  | None => ""
  end.

Definition flow_line (item : string * string) : string :=
  "- After " +:+ item.1 +:+ " completes, YOU MUST IMMEDIATELY call " +:+ item.2 +:+ newline.

Definition concat_strings (l : list string) : string := foldr String.append "" l.

(** The iteration order of a Python [set] is unspecified; [elements] fixes
    one. *)
Definition build_system_prompt (tool_connections : list ToolConnection) : string :=
  let unique_tools := (compile_flow tool_connections).1 in
  let tool_flow := foldl add_flow_item [] tool_connections in
  let has_sequential := existsb (λ conn, truthy (next_tool conn)) tool_connections in
  let system_prompt := prompt_header +:+ concat_strings (tool_line <$> elements unique_tools) in
  let system_prompt :=
    if has_sequential
    then system_prompt
         +:+ newline +:+ newline +:+ "TOOL EXECUTION FLOW:" +:+ newline
         +:+ "Some tools are connected in sequence. You MUST execute them in the specified order:" +:+ newline
         +:+ concat_strings (flow_line <$> tool_flow)
         +:+ prompt_sequential
    else system_prompt +:+ prompt_independent in
  system_prompt +:+ prompt_rules.

(** ** The program, relative to a world *)

Section Program.
Context (W : World).
Local Open Scope py_scope.

(** [requests.post(...)]/[requests.get(...)] followed by
    [raise_for_status()] and [response.json()]. *)
Definition send (req : HttpRequest) : M HttpOutcome :=
  λ tr, let out := http_send W tr req in (Ret out, tr ++ [EvHttp req out]).

(** [client.chat.completions.create(...)] and
    [response.choices[0].message]. *)
Definition create_chat_completion (req : ChatRequest) : M AssistantMessage :=
  λ tr, let out := chat_completions_create W tr req in
        (match out with
         | ProviderRaises msg => Raise (ProviderError msg)
         | ProviderReply m => Ret m
         end, tr ++ [EvChat req out]).

(** [json.loads(tool_call.function.arguments)] *)
Definition loads (doc : string) : outcome json :=
  match json_loads W doc with
  | Some v => Ret v
  | None => Raise (JSONDecodeError doc)
  end.

(** *** [execute_tool] *)

(** Lines 259-265: the ["{address}"] placeholder.  The assignment
    [parameters = {}] rebinds the local name only, the caller's dictionary is
    left as it is. *)
Definition substitute_address (tool_def : ToolDef) (parameters : json)
    : outcome (string * json) :=
  if str_contains "{address}" (endpoint tool_def) then
    has_address <~ py_contains "address" parameters ;;
    if has_address : bool then
      address <~ py_getitem "address" parameters ;;
      endpoint' <~ py_replace "{address}" address (endpoint tool_def) ;;
      if bool_decide (method tool_def = "GET")
      then Ret (endpoint', JDict ∅)
      else Ret (endpoint', parameters)
    else Ret (endpoint tool_def, parameters)
  else Ret (endpoint tool_def, parameters).

(** Lines 271-290: the [try] block.  A POST is handed the parameters as its
    [json] argument, a GET is handed none.  A [RequestException] becomes a
    failed result; the [ValueError] for an unsupported verb is not caught. *)
Definition dispatch (tool_name method endpoint : string) (parameters : json)
    : M ToolResult :=
  if bool_decide (method = "POST") then
    out <- send {| verb := "POST"; url := endpoint; payload := Some parameters |} ;;
    match out with
    | JsonBody body => ret (ToolSuccess tool_name body)
    | RequestException e => ret (ToolFailure tool_name e)
    end
  else if bool_decide (method = "GET") then
    out <- send {| verb := "GET"; url := endpoint; payload := None |} ;;
    match out with
    | JsonBody body => ret (ToolSuccess tool_name body)
    | RequestException e => ret (ToolFailure tool_name e)
    end
  else raise (ValueError ("Unsupported HTTP method: " +:+ method)).

Definition execute_tool (tool_name : string) (parameters : json) : M ToolResult :=
  match TOOL_DEFINITIONS !! tool_name with
  | None => raise (ValueError ("Unknown tool: " +:+ tool_name))
  | Some tool_def =>
      target <- lift (substitute_address tool_def parameters) ;;
      dispatch tool_name (method tool_def) target.1 target.2
  end.

(** *** [get_openai_tools] *)

Definition function_schema (d : ToolDef) : FunctionSchema :=
  {| fn_name := name d; fn_description := description d;
     fn_properties := properties d; fn_required := required d |}.

Definition get_openai_tools (tool_names : list string) : list FunctionSchema :=
  omap (λ tool_name, function_schema <$> TOOL_DEFINITIONS !! tool_name) tool_names.

(** *** [process_agent_conversation] *)

(** The local variables the loop updates. *)
Record LoopState := {
  messages : list Message;
  all_tool_calls : list ToolCallRecord;
  all_tool_results : list ToolResult
}.

Record ConversationResult := {
  cr_agent_response : option string;
  cr_tool_calls : list ToolCallRecord;
  cr_results : list ToolResult;
  cr_conversation_history : list Message
}.

(** Lines 372-375.  [function_args] is updated in place, before it is logged
    and before it is passed on, so the value that leaves this step is the one
    every later line sees. *)
Definition add_private_key (private_key : option string) (function_name : string)
    (function_args : json) : outcome json :=
  match private_key with
  | Some pk =>
      if truthy (Some pk) then
        match TOOL_DEFINITIONS !! function_name with
        | None => Raise (KeyError function_name)
        | Some tool_def =>
            if has_property "privateKey" tool_def then
              present <~ py_contains "privateKey" function_args ;;
              if present : bool
              then Ret function_args
              else py_setitem "privateKey" (JStr pk) function_args
            else Ret function_args
        end
      else Ret function_args
  | None => Ret function_args
  end.

(** Lines 368-391: the body of [for tool_call in
    assistant_message.tool_calls]. *)
Definition handle_tool_call (private_key : option string) (st : LoopState)
    (tool_call : ToolCall) : M LoopState :=
  let function_name := tc_name tool_call in
  function_args <- lift (loads (tc_arguments tool_call)) ;;
  function_args <- lift (add_private_key private_key function_name function_args) ;;
  let calls := all_tool_calls st ++
               [{| call_tool := function_name; call_parameters := function_args |}] in
  result <- execute_tool function_name function_args ;;
  ret {| messages := messages st ++
                     [ToolMsg (tc_id tool_call) (json_dumps W (result_dict result))];
         all_tool_calls := calls;
         all_tool_results := all_tool_results st ++ [result] |}.

(** [messages.append(msg)] *)
Definition push_message (msg : Message) (st : LoopState) : LoopState :=
  {| messages := messages st ++ [msg];
     all_tool_calls := all_tool_calls st;
     all_tool_results := all_tool_results st |}.

Definition directive (next : string) : Message :=
  SystemMsg ("IMPORTANT: You must now immediately call the " +:+ next
             +:+ " tool as it is next in the sequential flow. Do not ask for confirmation, proceed with the execution.").

(** Lines 393-402. *)
Definition continue_flow (tool_flow : gmap string string) (st : LoopState)
    : outcome LoopState :=
  match last (all_tool_calls st) with
  | None => Raise IndexError
  | Some c =>
      match tool_flow !! call_tool c with
      | Some next => Ret (push_message (directive next) st)
      | None => Ret st
      end
  end.

(** The arguments of the provider call: [tools=openai_tools if openai_tools
    else None], [tool_choice="auto" if openai_tools else None]. *)
Definition chat_request (openai_tools : list FunctionSchema) (history : list Message)
    : ChatRequest :=
  {| req_messages := history;
     req_tools := match openai_tools with [] => None | _ => Some openai_tools end;
     req_tool_choice := match openai_tools with [] => None | _ => Some "auto" end |}.

Definition max_iterations_notice : string :=
  "Maximum iterations reached. Please try again with a simpler request.".

(** Lines 337-410: [while iteration < max_iterations]; [remaining] is
    [max_iterations - iteration]. *)
Fixpoint conversation_loop (openai_tools : list FunctionSchema)
    (tool_flow : gmap string string) (private_key : option string)
    (remaining : nat) (st : LoopState) : M ConversationResult :=
  match remaining with
  | O =>
      ret {| cr_agent_response := Some max_iterations_notice;
             cr_tool_calls := all_tool_calls st;
             cr_results := all_tool_results st;
             cr_conversation_history := messages st |}
  | S remaining' =>
      assistant_message <- create_chat_completion (chat_request openai_tools (messages st)) ;;
      match am_tool_calls assistant_message with
      | [] =>
          ret {| cr_agent_response := am_content assistant_message;
                 cr_tool_calls := all_tool_calls st;
                 cr_results := all_tool_results st;
                 cr_conversation_history := messages st |}
      | batch =>
          let st := push_message (AssistantMsg (am_content assistant_message) batch) st in
          st <- for_each (handle_tool_call private_key) batch st ;;
          st <- lift (continue_flow tool_flow st) ;;
          conversation_loop openai_tools tool_flow private_key remaining' st
      end
  end.

Definition process_agent_conversation (system_prompt user_message : string)
    (available_tools : list string) (tool_flow : gmap string string)
    (private_key : option string) (max_iterations : Z) : M ConversationResult :=
  let system_prompt :=
    match private_key with
    | Some pk =>
        if truthy (Some pk)
        then system_prompt +:+ newline +:+ newline
             +:+ "CONTEXT: User's private key is available: " +:+ pk
        else system_prompt
    | None => system_prompt
    end in
  conversation_loop (get_openai_tools available_tools) tool_flow private_key
    (Z.to_nat max_iterations)
    {| messages := [SystemMsg system_prompt; UserMsg user_message];
       all_tool_calls := [];
       all_tool_results := [] |}.

(** *** [chat_with_agent] *)

(** Lines 434-436. *)
Fixpoint validate_tools (available_tools : list string) : outcome unit :=
  match available_tools with
  | [] => Ret ()
  | t :: rest =>
      match TOOL_DEFINITIONS !! t with
      | Some _ => validate_tools rest
      | None => Raise (HTTPException 400 ("Unknown tool: " +:+ t))
      end
  end.

(** [AgentResponse(...)]: [agent_response] is a required [str]. *)
Definition make_response (result : ConversationResult) : outcome AgentResponse :=
  match cr_agent_response result with
  | Some text =>
      Ret {| agent_response := text;
             tool_calls := cr_tool_calls result;
             results := cr_results result |}
  | None => Raise ValidationError
  end.

(** The body of the [try]. *)
Definition chat_with_agent_try (request : AgentRequest) : M AgentResponse :=
  let flow := compile_flow (tools request) in
  let available_tools := elements flow.1 in
  _ <- lift (validate_tools available_tools) ;;
  let system_prompt := build_system_prompt (tools request) in
  result <- process_agent_conversation system_prompt (user_message request)
              available_tools flow.2 (private_key request) 10 ;;
  lift (make_response result).

(** [except Exception as e: raise HTTPException(status_code=500,
    detail=str(e))]; every exception of the body, [HTTPException] included,
    is an [Exception]. *)
Definition chat_with_agent (request : AgentRequest) : M AgentResponse :=
  λ tr, match chat_with_agent_try request tr with
        | (Ret response, tr') => (Ret response, tr')
        | (Raise e, tr') => (Raise (HTTPException 500 (exn_str W e)), tr')
        end.

End Program.

(** ** Vocabulary of the specification *)

(** The successor an edge declares: an absent or empty [next_tool] declares
    none ([if conn.next_tool:]). *)
Definition declared_successor (conn : ToolConnection) : option string :=
  if truthy (next_tool conn) then next_tool conn else None.

(** The successor of the last edge, in list order, that declares one for
    [source]. *)
Definition last_successor (source : string) (conns : list ToolConnection) : option string :=
  last (omap (λ conn, if bool_decide (tool conn = source)
                      then declared_successor conn else None) conns).

(** The tool calls the model asked for, in the order of its turns and, within
    a turn, in the order it emitted them. *)
Definition requested_of (ev : Event) : list ToolCall :=
  match ev with
  | EvChat _ (ProviderReply m) => am_tool_calls m
  | _ => []
  end.
Definition requested (evs : list Event) : list ToolCall := evs ≫= requested_of.

Definition is_chat (ev : Event) : bool :=
  match ev with EvChat _ _ => true | EvHttp _ _ => false end.
Definition provider_calls (evs : list Event) : nat := length (filter is_chat evs).

Definition http_exchange (ev : Event) : option (HttpRequest * HttpOutcome) :=
  match ev with EvHttp req out => Some (req, out) | EvChat _ _ => None end.
Definition http_exchanges (evs : list Event) : list (HttpRequest * HttpOutcome) :=
  omap http_exchange evs.

(** The parameters logged for a tool call: the decoded arguments after the
    private key was added. *)
Definition resolved_parameters (W : World) (private_key : option string) (tc : ToolCall)
    : outcome json :=
  obind (loads W (tc_arguments tc)) (add_private_key private_key (tc_name tc)).

(** The single HTTP request [execute_tool] issues for a catalogue entry once
    the endpoint is resolved. *)
Definition request_of (tool_def : ToolDef) (target : string * json) : HttpRequest :=
  if bool_decide (method tool_def = "POST")
  then {| verb := "POST"; url := target.1; payload := Some target.2 |}
  else {| verb := "GET"; url := target.1; payload := None |}.

Definition result_of (tool_name : string) (out : HttpOutcome) : ToolResult :=
  match out with
  | JsonBody body => ToolSuccess tool_name body
  | RequestException e => ToolFailure tool_name e
  end.

(** The messages the driver adds after a batch whose last executed tool is
    [last_tool]. *)
Definition flow_directive (tool_flow : gmap string string) (last_tool : string)
    : list Message :=
  match tool_flow !! last_tool with
  | Some next => [directive next]
  | None => []
  end.

(** The value returned with a final answer or at the iteration cap. *)
Definition conversation_result (text : option string) (st : LoopState) : ConversationResult :=
  {| cr_agent_response := text;
     cr_tool_calls := all_tool_calls st;
     cr_results := all_tool_results st;
     cr_conversation_history := messages st |}.

(** Record [c] is the log entry of the model's request [tc]. *)
Definition logs_request (W : World) (private_key : option string)
    (tc : ToolCall) (c : ToolCallRecord) : Prop :=
  call_tool c = tc_name tc ∧
  resolved_parameters W private_key tc = Ret (call_parameters c).

(** The message that carries a tool result back to the model. *)
Definition tool_message (W : World) (tc : ToolCall) (r : ToolResult) : Message :=
  ToolMsg (tc_id tc) (json_dumps W (result_dict r)).

(** The call logged as [c] was carried out as the HTTP exchange [x], and [r]
    is what [execute_tool] returned for it. *)
Definition performed (W : World) (c : ToolCallRecord) (r : ToolResult)
    (x : HttpRequest * HttpOutcome) : Prop :=
  ∃ tr, execute_tool W (call_tool c) (call_parameters c) tr
        = (Ret r, tr ++ [EvHttp x.1 x.2]).

(** The parameters without the field [key]. *)
Definition without_field (key : string) (parameters : json) : json :=
  match parameters with
  | JDict d => JDict (delete key d)
  | _ => parameters
  end.

(** The placeholder step as the specification words it: the value is
    substituted into the URL and, for a GET, exactly the substituted field is
    removed from the outgoing mapping, every other supplied field staying. *)
Definition substitute_address_as_specified (tool_def : ToolDef) (parameters : json)
    : outcome (string * json) :=
  if str_contains "{address}" (endpoint tool_def) then
    obind (py_contains "address" parameters) (λ has_address,
      if has_address : bool then
        obind (py_getitem "address" parameters) (λ address,
          obind (py_replace "{address}" address (endpoint tool_def)) (λ endpoint',
            if bool_decide (method tool_def = "GET")
            then Ret (endpoint', without_field "address" parameters)
            else Ret (endpoint', parameters)))
      else Ret (endpoint tool_def, parameters))
  else Ret (endpoint tool_def, parameters).


(** Parameters from which no address can be taken for the placeholder
    although the membership test does not say there is none: a value that
    cannot be tested for membership, a string or list that holds
    ["address"] but cannot be indexed by it, an object whose [address] is
    not a string. *)
Definition address_unusable (parameters : json) : bool :=
  match parameters with
  | JNull | JBool _ | JInt _ | JFloat _ => true
  | JStr s => str_contains "address" s
  | JList l => existsb (is_JStr "address") l
  | JDict d =>
      match d !! "address" with
      | Some (JStr _) | None => false
      | Some _ => true
      end
  end.

(** A field of a decoded object. *)
Definition field (key : string) (v : json) : option json :=
  match v with
  | JDict d => d !! key
  | _ => None
  end.

(** The driver adds the caller's secret to the arguments [args] of a call to
    [tool_name]: the secret is not empty, the tool declares a [privateKey]
    field and the arguments are the object [d], which has no such field. *)
Definition secret_is_added (private_key : option string) (tool_name : string)
    (args : json) (secret : string) (d : gmap string json) : Prop :=
  private_key = Some secret ∧ secret ≠ "" ∧
  (∃ tool_def, TOOL_DEFINITIONS !! tool_name = Some tool_def ∧
               has_property "privateKey" tool_def = true) ∧
  args = JDict d ∧ d !! "privateKey" = None.

(** What the log entry [c] holds for the model's request [tc]: where the
    secret is added, the model's arguments with the secret under
    ["privateKey"]; everywhere else, the arguments the model emitted. *)
Definition logged_parameters (W : World) (private_key : option string)
    (tc : ToolCall) (c : ToolCallRecord) : Prop :=
  call_tool c = tc_name tc ∧
  ∃ args,
    json_loads W (tc_arguments tc) = Some args ∧
    ((∃ secret d,
        secret_is_added private_key (tc_name tc) args secret d ∧
        call_parameters c = JDict (<["privateKey" := JStr secret]> d)) ∨
     ((∀ secret d, ¬ secret_is_added private_key (tc_name tc) args secret d) ∧
      call_parameters c = args)).

(** The log entry [c] holds the secret only in fields where the model's own
    arguments hold it. *)
Definition secret_kept_out (W : World) (secret : string)
    (tc : ToolCall) (c : ToolCallRecord) : Prop :=
  ∀ key, field key (call_parameters c) = Some (JStr secret) →
         ∃ args, json_loads W (tc_arguments tc) = Some args ∧
                 field key args = Some (JStr secret).

(** The tool-call log of every response is free of the caller's secret. *)
Definition log_never_holds_secret : Prop :=
  ∀ (W : World) (request : AgentRequest) (tr evs : list Event)
    (response : AgentResponse) (secret : string),
    private_key request = Some secret →
    chat_with_agent W request tr = (Ret response, tr ++ evs) →
    Forall2 (secret_kept_out W secret) (requested evs) (tool_calls response).

(** After every batch that ends with tool [A], the driver appends the
    directive naming [B] and carries on from there; if the budget allows
    another iteration, the next thing that happens is the provider call on the
    history that ends with the directive. *)
Definition forces_successor (W : World) (conns : list ToolConnection) (A B : string)
    : Prop :=
  ∀ (openai_tools : list FunctionSchema) (pk : option string) (n : nat)
    (st st1 : LoopState) (tr tr1 : list Event) (m : AssistantMessage)
    (pre : list ToolCall) (tc : ToolCall),
    chat_completions_create W tr (chat_request openai_tools (messages st)) = ProviderReply m →
    am_tool_calls m = pre ++ [tc] →
    tc_name tc = A →
    for_each (handle_tool_call W pk) (am_tool_calls m)
      (push_message (AssistantMsg (am_content m) (am_tool_calls m)) st)
      (tr ++ [EvChat (chat_request openai_tools (messages st)) (ProviderReply m)])
    = (Ret st1, tr1) →
    let tool_flow := (compile_flow conns).2 in
    let st2 := push_message (directive B) st1 in
    conversation_loop W openai_tools tool_flow pk (S n) st tr
    = conversation_loop W openai_tools tool_flow pk n st2 tr1 ∧
    ∀ n', n = S n' →
      ∃ out rest,
        (conversation_loop W openai_tools tool_flow pk (S n) st tr).2
        = tr1 ++ EvChat (chat_request openai_tools (messages st2)) out :: rest.

(** ** Sample worlds *)

Definition dquote : string := String (Ascii.ascii_of_nat 34) EmptyString.
Definition quoted (s : string) : string := dquote +:+ s +:+ dquote.

(** The JSON text of a flat object with string values. *)
Fixpoint render_members (o : list (string * string)) : string :=
  match o with
  | [] => ""
  | [(k, v)] => quoted k +:+ ": " +:+ quoted v
  | (k, v) :: rest => quoted k +:+ ": " +:+ quoted v +:+ ", " +:+ render_members rest
  end.
Definition render_object (o : list (string * string)) : string :=
  "{" +:+ render_members o +:+ "}".

Definition object_value (o : list (string * string)) : json :=
  JDict (list_to_map (prod_map id JStr <$> o)).

Definition transfer_args : list (string * string) :=
  [("toAddress", "0xabc"); ("amount", "5"); ("tokenAddress", "0xdef")].
Definition balance_args : list (string * string) := [("address", "0xabc")].
Definition balance_args_extra : list (string * string) :=
  [("address", "0xabc"); ("unit", "wei")].

Definition known_documents : list (list (string * string)) :=
  [transfer_args; balance_args; balance_args_extra].

(** A decoder that agrees with [json.loads] on the documents above and, like
    it, rejects the truncated document ["{"]. *)
Definition sample_loads (doc : string) : option json :=
  object_value <$> find (λ o, bool_decide (render_object o = doc)) known_documents.

Definition sample_str (e : exn) : string :=
  match e with
  | JSONDecodeError _ => "Expecting property name enclosed in double quotes"
  | KeyError key => key
  | IndexError => "list index out of range"
  | TypeError => "unsupported operand"
  | ValueError msg => msg
  | ValidationError => "validation error"
  | ProviderError msg => msg
  | HTTPException status_code detail => pretty status_code +:+ ": " +:+ detail
  end.

(** A world whose model follows a script, one entry per provider call, and
    answers with [fallback] when the script is exhausted. *)
Definition scripted (script : list ProviderOutcome) (fallback : ProviderOutcome)
    (http : HttpRequest → HttpOutcome) : World :=
  {| json_loads := sample_loads;
     json_dumps := λ _, "";
     chat_completions_create := λ tr _, default fallback (script !! provider_calls tr);
     http_send := λ _ req, http req;
     exn_str := sample_str |}.

Definition call (id tool_name : string) (o : list (string * string)) : ToolCall :=
  {| tc_id := id; tc_name := tool_name; tc_arguments := render_object o |}.
Definition turn (calls : list ToolCall) : ProviderOutcome :=
  ProviderReply {| am_content := None; am_tool_calls := calls |}.
Definition answer (text : string) : ProviderOutcome :=
  ProviderReply {| am_content := Some text; am_tool_calls := [] |}.

Definition http_ok (req : HttpRequest) : HttpOutcome := JsonBody (JDict ∅).
Definition http_timeout (req : HttpRequest) : HttpOutcome :=
  RequestException "Read timed out. (read timeout=60)".

(** The model asks for the balance on every turn. *)
Definition insistent_world : World :=
  scripted [] (turn [call "call_0" "get_balance" balance_args]) http_ok.

Definition edge (source : string) (successor : option string) : ToolConnection :=
  {| tool := source; next_tool := successor |}.

(** A request that names a tool the catalogue does not have. *)
Definition bridge_request : AgentRequest :=
  {| tools := [edge "get_balance" None; edge "bridge" None];
     user_message := "Bridge my tokens.";
     private_key := None |}.

(** The model first asks for a transfer, then emits a truncated argument
    document. *)
Definition truncated_call : ToolCall :=
  {| tc_id := "call_2"; tc_name := "get_balance"; tc_arguments := "{" |}.
Definition truncating_world : World :=
  scripted [turn [call "call_1" "transfer" transfer_args]; turn [truncated_call]]
           (answer "Done.") http_ok.
Definition transfer_request : AgentRequest :=
  {| tools := [edge "transfer" (Some "get_balance")];
     user_message := "Send 5 tokens, then show my balance.";
     private_key := None |}.

(** The first reply already carries the truncated document. *)
Definition garbling_world : World :=
  scripted [turn [truncated_call]] (answer "Done.") http_ok.

(** One transfer, then a final answer; the caller supplies a secret. *)
Definition transfer_world : World :=
  scripted [turn [call "call_1" "transfer" transfer_args]] (answer "Sent.") http_ok.
Definition secret_request : AgentRequest :=
  {| tools := [edge "transfer" None];
     user_message := "Send 5 tokens.";
     private_key := Some "0xsecret" |}.

(** The same source declared twice, with two successors. *)
Definition ambiguous_edges : list ToolConnection :=
  [edge "transfer" (Some "swap"); edge "transfer" (Some "get_balance")].

Definition fresh_state (user_text : string) : LoopState :=
  {| messages := [SystemMsg "You are an AI agent for the Mantle blockchain platform.";
                  UserMsg user_text];
     all_tool_calls := [];
     all_tool_results := [] |}.

Definition transfer_turn : AssistantMessage :=
  {| am_content := None; am_tool_calls := [call "call_1" "transfer" transfer_args] |}.

(** Every endpoint times out; the model asks for a balance and a transfer in
    one turn. *)
Definition balance_then_transfer : AssistantMessage :=
  {| am_content := None;
     am_tool_calls := [call "call_1" "get_balance" balance_args;
                       call "call_2" "transfer" transfer_args] |}.
Definition timeout_world : World :=
  scripted [ProviderReply balance_then_transfer] (answer "The endpoints did not respond.")
           http_timeout.

(** Two turns of tool calls, then a final answer. *)
Definition two_turn_world : World :=
  scripted [turn [call "call_1" "transfer" transfer_args;
                  call "call_2" "get_balance" balance_args];
            turn [call "call_3" "get_balance" balance_args]]
           (answer "Done.") http_ok.

(** ** The remaining endpoints and the companion service *)

(** [list_tools] of the agent: [list(TOOL_DEFINITIONS.keys())], in the order
    of the dictionary literal, and the catalogue itself. *)
Definition list_tools : list string * gmap string ToolDef :=
  (catalogue_entries.*1, TOOL_DEFINITIONS).

(** [AVAILABLE_TOOLS] of [WorkflowBuilder/main.py]: the tool types the
    workflow builder lets the model choose from, and that
    [get_available_tools] returns. *)
Definition AVAILABLE_TOOLS : list string := [
  "transfer";
  "swap";
  "stt_balance_fetch";
  "deploy_erc20";
  "deploy_erc721";
  "create_dao";
  "airdrop";
  "fetch_token_price";
  "deposit_with_yield_prediction";
  "wallet_analytics"].

Definition get_available_tools : list string := AVAILABLE_TOOLS.

(** ** Further vocabulary *)

(** The system prompt as the driver sends it: lines 321-322. *)
Definition with_key_context (private_key : option string) (system_prompt : string) : string :=
  match private_key with
  | Some pk =>
      if truthy (Some pk)
      then system_prompt +:+ newline +:+ newline
           +:+ "CONTEXT: User's private key is available: " +:+ pk
      else system_prompt
  | None => system_prompt
  end.

(** The message histories sent to the provider, in the order of the calls. *)
Definition chat_history (ev : Event) : option (list Message) :=
  match ev with EvChat req _ => Some (req_messages req) | EvHttp _ _ => None end.
Definition chat_histories (evs : list Event) : list (list Message) :=
  omap chat_history evs.

(** The catalogue tools that declare no [privateKey] parameter. *)
Definition keyless_tools : list string := ["get_balance"; "fetch_price"; "wallet_analytics"].

(** The builder's tool types that the agent's catalogue does not have. *)
Definition builder_only_tools : list string :=
  ["stt_balance_fetch"; "fetch_token_price"; "deposit_with_yield_prediction"].

(** The first lines of the flow section of the prompt. *)
Definition prompt_flow_header : string :=
  newline +:+ newline +:+ "TOOL EXECUTION FLOW:" +:+ newline
  +:+ "Some tools are connected in sequence. You MUST execute them in the specified order:"
  +:+ newline.

(** The spec's own scenario: an airdrop followed by a deposit, under the
    names the workflow builder uses. *)
Definition builder_request : AgentRequest :=
  {| tools := [edge "airdrop" (Some "deposit_with_yield_prediction")];
     user_message := "airdrop 10 tokens to these addresses then deposit with 5% APY";
     private_key := None |}.

(** The model asks for a tool that does not exist. *)
Definition bridge_turn : AssistantMessage :=
  {| am_content := None; am_tool_calls := [call "call_1" "bridge" balance_args] |}.
Definition bridging_world : World :=
  scripted [ProviderReply bridge_turn] (answer "Done.") http_ok.

(** The model answers at once, with a message that has no text. *)
Definition mute_world : World :=
  scripted [] (ProviderReply {| am_content := None; am_tool_calls := [] |}) http_ok.
Definition balance_request : AgentRequest :=
  {| tools := [edge "get_balance" None];
     user_message := "What is my balance?";
     private_key := None |}.

(** * Properties *)

(** ** The monad *)

Lemma bind_ret_inv {A B} (c : M A) (k : A → M B) tr b tr' :
  bind c k tr = (Ret b, tr') →
  ∃ a tr1, c tr = (Ret a, tr1) ∧ k a tr1 = (Ret b, tr').
Proof.
  unfold bind. destruct (c tr) as [[a|e] tr1] eqn:Hc; [eauto | discriminate].
Qed.

Lemma bind_ret_eq {A B} (c : M A) (k : A → M B) tr a tr1 :
  c tr = (Ret a, tr1) → bind c k tr = k a tr1.
Proof. unfold bind. by intros ->. Qed.

Lemma bind_raise_eq {A B} (c : M A) (k : A → M B) tr e tr1 :
  c tr = (Raise e, tr1) → bind c k tr = (Raise e, tr1).
Proof. unfold bind. by intros ->. Qed.

Lemma lift_ret_inv {A} (o : outcome A) tr a tr' :
  lift o tr = (Ret a, tr') → o = Ret a ∧ tr' = tr.
Proof. unfold lift. by intros [= -> ->]. Qed.

Lemma obind_ret_inv {A B} (o : outcome A) (k : A → outcome B) b :
  obind o k = Ret b → ∃ a, o = Ret a ∧ k a = Ret b.
Proof. destruct o as [a|e]; simpl; [eauto | discriminate]. Qed.

(** ** The catalogue *)

Lemma catalogue_lookup tool_name tool_def :
  TOOL_DEFINITIONS !! tool_name = Some tool_def → (tool_name, tool_def) ∈ catalogue_entries.
Proof. apply elem_of_list_to_map_2. Qed.

Lemma catalogue_methods tool_name tool_def :
  TOOL_DEFINITIONS !! tool_name = Some tool_def →
  method tool_def = "POST" ∨ method tool_def = "GET".
Proof.
  intros H%catalogue_lookup. unfold catalogue_entries in H.
  repeat (apply elem_of_cons in H as [[= -> ->]|H]; [simpl; auto|]).
  by apply elem_of_nil in H.
Qed.

(** Only [get_balance] has a path placeholder. *)
Lemma catalogue_placeholder tool_name tool_def :
  TOOL_DEFINITIONS !! tool_name = Some tool_def →
  str_contains "{address}" (endpoint tool_def) = true →
  tool_name = "get_balance" ∧ tool_def = get_balance_def.
Proof.
  intros H%catalogue_lookup. unfold catalogue_entries in H.
  repeat (apply elem_of_cons in H as [[= -> ->]|H];
          [vm_compute; (discriminate || auto)|]).
  by apply elem_of_nil in H.
Qed.

(** ** [execute_tool] *)

Section Facts.
Context (W : World).

Lemma dispatch_known tool_name tool_def target tr :
  method tool_def = "POST" ∨ method tool_def = "GET" →
  let req := request_of tool_def target in
  dispatch W tool_name (method tool_def) target.1 target.2 tr
  = (Ret (result_of tool_name (http_send W tr req)), tr ++ [EvHttp req (http_send W tr req)]).
Proof.
  intros Hm req. unfold dispatch, request_of in *. subst req.
  destruct Hm as [Hm|Hm]; rewrite Hm; simpl; unfold bind, send;
    by destruct (http_send W tr _).
Qed.

Lemma execute_tool_known tool_name tool_def parameters target tr :
  TOOL_DEFINITIONS !! tool_name = Some tool_def →
  substitute_address tool_def parameters = Ret target →
  let req := request_of tool_def target in
  execute_tool W tool_name parameters tr
  = (Ret (result_of tool_name (http_send W tr req)), tr ++ [EvHttp req (http_send W tr req)]).
Proof.
  intros Hd Hs req. unfold execute_tool. rewrite Hd.
  rewrite (bind_ret_eq _ _ tr target tr); [|by rewrite Hs].
  apply dispatch_known. by eapply catalogue_methods.
Qed.

Lemma execute_tool_ret tool_name parameters tr r tr' :
  execute_tool W tool_name parameters tr = (Ret r, tr') →
  ∃ tool_def target,
    TOOL_DEFINITIONS !! tool_name = Some tool_def ∧
    substitute_address tool_def parameters = Ret target ∧
    r = result_of tool_name (http_send W tr (request_of tool_def target)) ∧
    tr' = tr ++ [EvHttp (request_of tool_def target)
                        (http_send W tr (request_of tool_def target))].
Proof.
  intros H.
  destruct (TOOL_DEFINITIONS !! tool_name) as [d|] eqn:Hd;
    [|unfold execute_tool in H; by rewrite Hd in H].
  destruct (substitute_address d parameters) as [target|e] eqn:Hs.
  - rewrite (execute_tool_known _ _ _ _ _ Hd Hs) in H. injection H as <- <-.
    by exists d, target.
  - unfold execute_tool in H. rewrite Hd in H.
    by rewrite (bind_raise_eq _ _ tr e tr) in H; [|rewrite Hs].
Qed.

(** Whatever happens, [execute_tool] makes at most one HTTP call and no
    provider call. *)
Lemma execute_tool_trace tool_name parameters tr :
  ∃ evs, (execute_tool W tool_name parameters tr).2 = tr ++ evs ∧
         Forall (λ ev, is_chat ev = false) evs.
Proof.
  unfold execute_tool.
  destruct (TOOL_DEFINITIONS !! tool_name) as [d|] eqn:Hd;
    [|exists []; by rewrite app_nil_r].
  destruct (substitute_address d parameters) as [target|e] eqn:Hs.
  - rewrite (bind_ret_eq _ _ tr target tr); [|done].
    rewrite dispatch_known; [|by eapply catalogue_methods].
    eexists [_]; split; [done|]. by repeat constructor.
  - rewrite (bind_raise_eq _ _ tr e tr); [|done].
    exists []; by rewrite app_nil_r.
Qed.

(** ** One tool call *)

Lemma result_tool_result_of tool_name out : result_tool (result_of tool_name out) = tool_name.
Proof. by destruct out. Qed.

Lemma handle_tool_call_resolved pk st tc tr params :
  resolved_parameters W pk tc = Ret params →
  handle_tool_call W pk st tc tr
  = bind (execute_tool W (tc_name tc) params)
      (λ result, ret {| messages := messages st ++ [tool_message W tc result];
                        all_tool_calls := all_tool_calls st ++
                          [{| call_tool := tc_name tc; call_parameters := params |}];
                        all_tool_results := all_tool_results st ++ [result] |}) tr.
Proof.
  unfold resolved_parameters. intros (args & Hl & Hk)%obind_ret_inv.
  unfold handle_tool_call.
  rewrite (bind_ret_eq _ _ tr args tr); [|by rewrite Hl].
  by rewrite (bind_ret_eq _ _ tr params tr); [|rewrite Hk].
Qed.

Lemma handle_tool_call_unresolved pk st tc tr e :
  resolved_parameters W pk tc = Raise e →
  handle_tool_call W pk st tc tr = (Raise e, tr).
Proof.
  unfold resolved_parameters, handle_tool_call. intros H.
  destruct (loads W (tc_arguments tc)) as [args|e'] eqn:Hl; simpl in H.
  - rewrite (bind_ret_eq _ _ tr args tr); [|done].
    by rewrite (bind_raise_eq _ _ tr e tr); [|rewrite H].
  - injection H as ->. by rewrite (bind_raise_eq _ _ tr e tr).
Qed.

Lemma handle_tool_call_ret pk st tc tr st' tr' :
  handle_tool_call W pk st tc tr = (Ret st', tr') →
  ∃ params r req out,
    resolved_parameters W pk tc = Ret params ∧
    execute_tool W (tc_name tc) params tr = (Ret r, tr') ∧
    tr' = tr ++ [EvHttp req out] ∧
    r = result_of (tc_name tc) out ∧
    st' = {| messages := messages st ++ [tool_message W tc r];
             all_tool_calls := all_tool_calls st ++
               [{| call_tool := tc_name tc; call_parameters := params |}];
             all_tool_results := all_tool_results st ++ [r] |}.
Proof.
  intros H.
  destruct (resolved_parameters W pk tc) as [params|e] eqn:Hp;
    [|by rewrite (handle_tool_call_unresolved _ _ _ _ _ Hp) in H].
  rewrite (handle_tool_call_resolved _ _ _ _ _ Hp) in H.
  apply bind_ret_inv in H as (r & tr1 & Hx & Hr). injection Hr as <- <-.
  destruct (execute_tool_ret _ _ _ _ _ Hx) as (d & target & _ & _ & Hres & Htr).
  by exists params, r, (request_of d target), (http_send W tr (request_of d target)).
Qed.

Lemma handle_tool_call_trace pk st tc tr :
  ∃ evs, (handle_tool_call W pk st tc tr).2 = tr ++ evs ∧
         Forall (λ ev, is_chat ev = false) evs.
Proof.
  destruct (resolved_parameters W pk tc) as [params|e] eqn:Hp.
  - rewrite (handle_tool_call_resolved _ _ _ _ _ Hp). unfold bind.
    destruct (execute_tool_trace (tc_name tc) params tr) as (evs & Htr & Hevs).
    exists evs. split; [|done].
    by destruct (execute_tool W (tc_name tc) params tr) as [[r|e] tr1].
  - rewrite (handle_tool_call_unresolved _ _ _ _ _ Hp).
    exists []. by rewrite app_nil_r.
Qed.

(** ** One batch *)

Lemma for_each_handle_trace pk batch st tr :
  ∃ evs, (for_each (handle_tool_call W pk) batch st tr).2 = tr ++ evs ∧
         Forall (λ ev, is_chat ev = false) evs.
Proof.
  revert st tr. induction batch as [|tc batch IH]; intros st tr; simpl.
  - exists []. by rewrite app_nil_r.
  - destruct (handle_tool_call_trace pk st tc tr) as (evs1 & Htr1 & Hevs1).
    unfold bind. destruct (handle_tool_call W pk st tc tr) as [[st1|e] tr1]; simpl in *.
    + destruct (IH st1 tr1) as (evs2 & Htr2 & Hevs2).
      exists (evs1 ++ evs2). rewrite Htr2, Htr1, app_assoc.
      split; [done|]. by apply Forall_app.
    + by exists evs1.
Qed.

Lemma for_each_handle_ret pk batch st tr st' tr' :
  for_each (handle_tool_call W pk) batch st tr = (Ret st', tr') →
  ∃ calls ress evs,
    all_tool_calls st' = all_tool_calls st ++ calls ∧
    all_tool_results st' = all_tool_results st ++ ress ∧
    messages st' = messages st ++ zip_with (tool_message W) batch ress ∧
    tr' = tr ++ evs ∧
    Forall2 (logs_request W pk) batch calls ∧
    Forall3 (performed W) calls ress (http_exchanges evs) ∧
    requested evs = [] ∧
    provider_calls evs = 0.
Proof.
  revert st tr. induction batch as [|tc batch IH]; intros st tr; simpl.
  - intros [= <- <-]. exists [], [], []. rewrite !app_nil_r.
    repeat split; constructor.
  - intros (st1 & tr1 & H1 & H2)%bind_ret_inv.
    apply handle_tool_call_ret in H1 as (params & r & req & out & Hp & Hx & -> & Hr & ->).
    apply IH in H2 as (calls & ress & evs & Hc & Hs & Hm & -> & Hl & Ha & Hq & Hn).
    simpl in *.
    exists ({| call_tool := tc_name tc; call_parameters := params |} :: calls),
           (r :: ress), (EvHttp req out :: evs).
    rewrite Hc, Hs, Hm, <- !app_assoc. simpl.
    repeat split; try done.
    + by constructor.
    + unfold http_exchanges. simpl. constructor; [|done]. by exists tr.
Qed.

Lemma for_each_handle_last pk batch tc st tr st' tr' :
  for_each (handle_tool_call W pk) (batch ++ [tc]) st tr = (Ret st', tr') →
  ∃ c, last (all_tool_calls st') = Some c ∧ call_tool c = tc_name tc.
Proof.
  intros (calls & ress & evs & Hc & _ & _ & _ & Hl & _)%for_each_handle_ret.
  apply Forall2_app_inv_l in Hl as (calls1 & calls2 & _ & Hl2 & ->).
  apply Forall2_cons_inv_l in Hl2 as (c & calls3 & [Hc1 _] & ->%Forall2_nil_inv_l & ->).
  exists c. rewrite Hc, !app_assoc, last_snoc. done.
Qed.

Lemma for_each_app {A S} (body : S → A → M S) (l1 l2 : list A) (s : S) (tr : list Event) :
  for_each body (l1 ++ l2) s tr = bind (for_each body l1 s) (for_each body l2) tr.
Proof.
  revert s tr. induction l1 as [|x l1 IH]; intros s tr; simpl; [done|].
  unfold bind. destruct (body s x tr) as [[s1|e] tr1]; [|done]. apply IH.
Qed.

(** ** One iteration of the loop *)

Lemma provider_calls_app evs1 evs2 :
  provider_calls (evs1 ++ evs2) = provider_calls evs1 + provider_calls evs2.
Proof. unfold provider_calls. by rewrite filter_app, length_app. Qed.

Lemma provider_calls_http evs :
  Forall (λ ev, is_chat ev = false) evs → provider_calls evs = 0.
Proof.
  unfold provider_calls. induction 1 as [|ev evs Hev _ IH]; [done|].
  rewrite filter_cons. destruct (decide (is_chat ev)) as [Hc|_]; [|done].
  rewrite Hev in Hc. done.
Qed.

Lemma requested_app evs1 evs2 : requested (evs1 ++ evs2) = requested evs1 ++ requested evs2.
Proof. unfold requested. apply bind_app. Qed.

Lemma http_exchanges_app evs1 evs2 :
  http_exchanges (evs1 ++ evs2) = http_exchanges evs1 ++ http_exchanges evs2.
Proof. unfold http_exchanges. apply omap_app. Qed.

Lemma continue_flow_after flow st c :
  last (all_tool_calls st) = Some c →
  continue_flow flow st
  = Ret {| messages := messages st ++ flow_directive flow (call_tool c);
           all_tool_calls := all_tool_calls st;
           all_tool_results := all_tool_results st |}.
Proof.
  intros Hl. unfold continue_flow, flow_directive. rewrite Hl.
  destruct (flow !! call_tool c); [done|].
  rewrite app_nil_r. by destruct st.
Qed.

Lemma continue_flow_ret flow st st' :
  continue_flow flow st = Ret st' →
  all_tool_calls st' = all_tool_calls st ∧ all_tool_results st' = all_tool_results st.
Proof.
  unfold continue_flow. destruct (last (all_tool_calls st)) as [c|]; [|done].
  destruct (flow !! call_tool c); by intros [= <-].
Qed.

Section Loop.
Context (openai_tools : list FunctionSchema) (tool_flow : gmap string string)
  (private_key : option string).

Lemma conversation_loop_raises n st tr msg :
  chat_completions_create W tr (chat_request openai_tools (messages st)) = ProviderRaises msg →
  conversation_loop W openai_tools tool_flow private_key (S n) st tr
  = (Raise (ProviderError msg), tr ++ [EvChat (chat_request openai_tools (messages st)) (ProviderRaises msg)]).
Proof.
  intros H. simpl. unfold bind, create_chat_completion. by rewrite H.
Qed.

Lemma conversation_loop_answer n st tr m :
  chat_completions_create W tr (chat_request openai_tools (messages st)) = ProviderReply m →
  am_tool_calls m = [] →
  conversation_loop W openai_tools tool_flow private_key (S n) st tr
  = (Ret (conversation_result (am_content m) st), tr ++ [EvChat (chat_request openai_tools (messages st)) (ProviderReply m)]).
Proof.
  intros H Hb. simpl. unfold bind, create_chat_completion.
  rewrite H. simpl. by rewrite Hb.
Qed.

Lemma conversation_loop_batch n st tr m :
  chat_completions_create W tr (chat_request openai_tools (messages st)) = ProviderReply m →
  am_tool_calls m ≠ [] →
  conversation_loop W openai_tools tool_flow private_key (S n) st tr
  = bind (for_each (handle_tool_call W private_key) (am_tool_calls m)
            (push_message (AssistantMsg (am_content m) (am_tool_calls m)) st))
         (λ st1, bind (lift (continue_flow tool_flow st1)) (conversation_loop W openai_tools tool_flow private_key n))
         (tr ++ [EvChat (chat_request openai_tools (messages st)) (ProviderReply m)]).
Proof.
  intros H Hb. simpl. unfold bind at 1. unfold create_chat_completion.
  rewrite H. simpl. by destruct (am_tool_calls m).
Qed.

(** ** The whole loop *)

(** Every iteration issues exactly one provider call, so the number of
    provider calls in the trace is the number of iterations; it never exceeds
    the budget, whether the loop returns or raises. *)
Lemma conversation_loop_bounded n st tr :
  ∃ evs, (conversation_loop W openai_tools tool_flow private_key n st tr).2 = tr ++ evs ∧ (provider_calls evs ≤ n)%nat.
Proof.
  revert st tr. induction n as [|n IH]; intros st tr.
  - exists []. by rewrite app_nil_r.
  - destruct (chat_completions_create W tr (chat_request openai_tools (messages st))) as [msg|m] eqn:Hc.
    + rewrite (conversation_loop_raises _ _ _ _ Hc). eexists [_]. split; [done|].
      unfold provider_calls. simpl. lia.
    + destruct (decide (am_tool_calls m = [])) as [Hb|Hb].
      * rewrite (conversation_loop_answer _ _ _ _ Hc Hb). eexists [_]. split; [done|].
        unfold provider_calls. simpl. lia.
      * rewrite (conversation_loop_batch _ _ _ _ Hc Hb).
        set (st0 := push_message _ st). set (tr0 := tr ++ _).
        destruct (for_each_handle_trace private_key (am_tool_calls m) st0 tr0)
          as (evs1 & Htr1 & Hevs1).
        unfold bind at 1.
        destruct (for_each _ _ st0 tr0) as [[st1|e] tr1]; simpl in Htr1; subst tr1.
        -- unfold bind, lift. destruct (continue_flow tool_flow st1) as [st2|e].
           ++ destruct (IH st2 (tr0 ++ evs1)) as (evs2 & -> & Hn).
              exists (EvChat (chat_request openai_tools (messages st)) (ProviderReply m) :: evs1 ++ evs2).
              subst tr0. rewrite <- !app_assoc. split; [done|].
              change (EvChat ?a ?b :: ?l) with ([EvChat a b] ++ l).
              rewrite !provider_calls_app, (provider_calls_http evs1 Hevs1).
              unfold provider_calls at 1. simpl. lia.
           ++ exists (EvChat (chat_request openai_tools (messages st)) (ProviderReply m) :: evs1).
              subst tr0. rewrite <- !app_assoc. split; [done|].
              change (EvChat ?a ?b :: ?l) with ([EvChat a b] ++ l).
              rewrite !provider_calls_app, (provider_calls_http evs1 Hevs1).
              unfold provider_calls at 1. simpl. lia.
        -- exists (EvChat (chat_request openai_tools (messages st)) (ProviderReply m) :: evs1).
           subst tr0. rewrite <- !app_assoc. split; [done|].
           change (EvChat ?a ?b :: ?l) with ([EvChat a b] ++ l).
           rewrite !provider_calls_app, (provider_calls_http evs1 Hevs1).
           unfold provider_calls at 1. simpl. lia.
Qed.

(** What a returned value holds, in terms of what happened: the call log has
    one record per tool call the model requested, in the order of the
    requests; the result log has one result per HTTP exchange, in the order
    of the exchanges; and the two logs are paired. *)
Lemma conversation_loop_ret n st tr r tr' :
  conversation_loop W openai_tools tool_flow private_key n st tr = (Ret r, tr') →
  ∃ evs calls ress,
    tr' = tr ++ evs ∧
    cr_tool_calls r = all_tool_calls st ++ calls ∧
    cr_results r = all_tool_results st ++ ress ∧
    Forall2 (logs_request W private_key) (requested evs) calls ∧
    Forall3 (performed W) calls ress (http_exchanges evs).
Proof.
  revert st tr r tr'. induction n as [|n IH]; intros st tr r tr'.
  - intros [= <- <-]. exists [], [], []. rewrite !app_nil_r. simpl.
    repeat split; constructor.
  - destruct (chat_completions_create W tr (chat_request openai_tools (messages st))) as [msg|m] eqn:Hc;
      [by rewrite (conversation_loop_raises _ _ _ _ Hc)|].
    destruct (decide (am_tool_calls m = [])) as [Hb|Hb].
    + rewrite (conversation_loop_answer _ _ _ _ Hc Hb). intros [= <- <-].
      exists [EvChat (chat_request openai_tools (messages st)) (ProviderReply m)], [], [].
      rewrite !app_nil_r. unfold requested. simpl.
      rewrite Hb. repeat split; constructor.
    + rewrite (conversation_loop_batch _ _ _ _ Hc Hb).
      intros (st1 & tr1 & H1 & H2)%bind_ret_inv.
      apply bind_ret_inv in H2 as (st2 & tr2 & [Hf ->]%lift_ret_inv & H2).
      apply for_each_handle_ret in H1
        as (calls1 & ress1 & evs1 & Hc1 & Hr1 & _ & -> & Hl1 & Ha1 & Hq1 & _).
      apply continue_flow_ret in Hf as [Hc2 Hr2].
      apply IH in H2 as (evs2 & calls2 & ress2 & -> & Hc3 & Hr3 & Hl2 & Ha2).
      exists (EvChat (chat_request openai_tools (messages st)) (ProviderReply m) :: evs1 ++ evs2), (calls1 ++ calls2),
             (ress1 ++ ress2).
      rewrite Hc3, Hr3, Hc2, Hr2, Hc1, Hr1. simpl. rewrite <- !app_assoc.
      repeat split; try done.
      * change (EvChat ?a ?b :: ?l) with ([EvChat a b] ++ l).
        rewrite !requested_app, Hq1. unfold requested at 1. simpl.
        by apply Forall2_app.
      * unfold http_exchanges. simpl. fold (http_exchanges (evs1 ++ evs2)).
        rewrite http_exchanges_app. by apply Forall3_app.
Qed.

End Loop.

End Facts.

(** ** Flow compilation *)

Lemma add_connection_declared acc conn :
  add_connection acc conn
  = match declared_successor conn with
    | Some nt => (acc.1 ∪ {[tool conn]} ∪ {[nt]}, <[tool conn := nt]> acc.2)
    | None => (acc.1 ∪ {[tool conn]}, acc.2)
    end.
Proof.
  unfold add_connection, declared_successor.
  by destruct (next_tool conn) as [[|a s]|].
Qed.

Lemma add_flow_item_declared d conn :
  add_flow_item d conn
  = match declared_successor conn with
    | Some nt => dict_assign (tool conn) nt d
    | None => d
    end.
Proof.
  unfold add_flow_item, declared_successor.
  by destruct (next_tool conn) as [[|a s]|].
Qed.

Lemma foldl_add_connection_tools conns acc t :
  t ∈ (foldl add_connection acc conns).1 ↔
  t ∈ acc.1 ∨ ∃ conn, conn ∈ conns ∧ (tool conn = t ∨ declared_successor conn = Some t).
Proof.
  revert acc. induction conns as [|conn conns IH]; intros acc; simpl.
  - split; [auto|]. intros [H|(conn & Hc & _)]; [done|]. by apply elem_of_nil in Hc.
  - rewrite IH, add_connection_declared. split.
    + intros [H|(c & Hc & Ht)].
      * destruct (declared_successor conn) as [nt|] eqn:Hd; simpl in H.
        -- apply elem_of_union in H as [H|H%elem_of_singleton].
           ++ apply elem_of_union in H as [H|H%elem_of_singleton]; [by left|].
              right. exists conn. split; [left|]; auto.
           ++ right. exists conn. split; [left|]. subst. auto.
        -- apply elem_of_union in H as [H|H%elem_of_singleton]; [by left|].
           right. exists conn. split; [left|]; auto.
      * right. exists c. split; [by right|done].
    + intros [H|(c & Hc & Ht)].
      * left. destruct (declared_successor conn); simpl; set_solver.
      * apply elem_of_cons in Hc as [->|Hc]; [|right; by exists c].
        left. destruct Ht as [<-|Ht].
        -- destruct (declared_successor conn); simpl; set_solver.
        -- rewrite Ht. simpl. set_solver.
Qed.

Lemma last_successor_cons source conn conns :
  last_successor source (conn :: conns)
  = match last_successor source conns with
    | Some b => Some b
    | None => if bool_decide (tool conn = source) then declared_successor conn else None
    end.
Proof.
  unfold last_successor. simpl.
  destruct (bool_decide (tool conn = source)); [|by destruct (last _)].
  destruct (declared_successor conn) as [nt|]; simpl; [|by destruct (last _)].
  apply last_cons.
Qed.

Lemma foldl_add_connection_flow conns acc source :
  (foldl add_connection acc conns).2 !! source
  = match last_successor source conns with
    | Some b => Some b
    | None => acc.2 !! source
    end.
Proof.
  revert acc. induction conns as [|conn conns IH]; intros acc; simpl; [done|].
  rewrite IH, last_successor_cons, add_connection_declared.
  destruct (last_successor source conns) as [b|]; [done|].
  destruct (declared_successor conn) as [nt|]; simpl.
  - case_bool_decide as Ht.
    + subst. apply lookup_insert_eq.
    + by apply lookup_insert_ne.
  - by case_bool_decide.
Qed.

Lemma compile_flow_tools conns t :
  t ∈ (compile_flow conns).1 ↔
  ∃ conn, conn ∈ conns ∧ (tool conn = t ∨ declared_successor conn = Some t).
Proof.
  unfold compile_flow. rewrite foldl_add_connection_tools. simpl. set_solver.
Qed.

Lemma compile_flow_lookup conns source :
  (compile_flow conns).2 !! source = last_successor source conns.
Proof.
  unfold compile_flow. rewrite foldl_add_connection_flow. simpl.
  by destruct (last_successor source conns).
Qed.

Lemma list_to_map_dict_assign k v (d : list (string * string)) :
  (list_to_map (dict_assign k v d) : gmap string string) = <[k := v]> (list_to_map d).
Proof.
  induction d as [|[k' v'] d IH]; simpl; [done|].
  case_bool_decide as Hk; simpl.
  - subst. by rewrite insert_insert_eq.
  - rewrite IH. by apply insert_insert_ne.
Qed.

Lemma foldl_add_flow_item conns d acc :
  (list_to_map d : gmap string string) = acc.2 →
  (list_to_map (foldl add_flow_item d conns) : gmap string string)
  = (foldl add_connection acc conns).2.
Proof.
  revert d acc. induction conns as [|conn conns IH]; intros d acc Hd; simpl; [done|].
  apply IH. rewrite add_flow_item_declared, add_connection_declared.
  destruct (declared_successor conn) as [nt|]; simpl; [|done].
  by rewrite list_to_map_dict_assign, Hd.
Qed.

(** C7. For every ordered list of tool edges the flow compiler yields (1) a
    tool set whose members are exactly the source identifiers and the declared
    successor identifiers, listed without duplicates in [available_tools], and
    (2) a successor map that sends each source to one successor, the one of
    the last edge in list order that declares a successor for that source,
    and is undefined elsewhere.  The dictionary [build_system_prompt] builds
    for itself is the same map. *)
Theorem flow_compiler_last_write_wins (conns : list ToolConnection) :
  let unique_tools := (compile_flow conns).1 in
  let tool_flow := (compile_flow conns).2 in
  let available_tools := elements unique_tools in
  (∀ t, t ∈ available_tools ↔
        ∃ conn, conn ∈ conns ∧ (tool conn = t ∨ declared_successor conn = Some t)) ∧
  NoDup available_tools ∧
  (∀ source, tool_flow !! source = last_successor source conns) ∧
  (list_to_map (foldl add_flow_item [] conns) : gmap string string) = tool_flow.
Proof.
  repeat split.
  - intros H%elem_of_elements. by apply compile_flow_tools.
  - intros H. apply elem_of_elements. by apply compile_flow_tools.
  - apply NoDup_elements.
  - apply compile_flow_lookup.
  - unfold compile_flow. by apply foldl_add_flow_item.
Qed.

(** An edge without successor, or with the empty string for one, adds its
    source to the tool set and leaves the successor map as it is. *)
Example later_edge_without_successor_keeps_entry :
  (compile_flow [edge "transfer" (Some "swap"); edge "transfer" None]).2 !! "transfer"
  = Some "swap".
Proof. vm_compute. reflexivity. Qed.

Example empty_successor_declares_nothing :
  compile_flow [edge "transfer" (Some "")] = ({["transfer"]}, ∅).
Proof. vm_compute. reflexivity. Qed.

(** ** The returned logs *)

Lemma performed_inv W c r x :
  performed W c r x →
  result_tool r = call_tool c ∧
  r = result_of (call_tool c) x.2 ∧
  ∃ tool_def target,
    TOOL_DEFINITIONS !! call_tool c = Some tool_def ∧
    substitute_address tool_def (call_parameters c) = Ret target ∧
    x.1 = request_of tool_def target.
Proof.
  intros [tr (d & target & Hd & Hs & Hr & Htr)%execute_tool_ret].
  apply app_inv_head in Htr. injection Htr as Hreq Hout.
  rewrite <- Hout in Hr. subst r. rewrite result_tool_result_of.
  repeat split. by exists d, target.
Qed.

Lemma logs_request_names W pk tcs calls :
  Forall2 (logs_request W pk) tcs calls → call_tool <$> calls = tc_name <$> tcs.
Proof.
  induction 1 as [|tc c tcs calls [Hn _] _ IH]; [done|].
  by rewrite !fmap_cons, Hn, IH.
Qed.

(** C1. On every input [process_agent_conversation] stops within
    [max_iterations] iterations: it is a total function, and the trace of any
    run, returning or raising, holds at most [max_iterations] provider calls
    (each iteration issues exactly one).  Whatever it returns, after a final
    answer or at the cap, carries the complete logs: one call record per tool
    call the model requested, in the order of the requests, and one result per
    HTTP exchange that took place, in the order of the exchanges. *)
Theorem process_agent_conversation_terminates (W : World)
    (system_prompt user_message : string) (available_tools : list string)
    (tool_flow : gmap string string) (private_key : option string)
    (max_iterations : Z) (tr : list Event) :
  let run := process_agent_conversation W system_prompt user_message available_tools
               tool_flow private_key max_iterations tr in
  ∃ evs,
    run.2 = tr ++ evs ∧
    (provider_calls evs ≤ Z.to_nat max_iterations)%nat ∧
    ∀ r, run.1 = Ret r →
      Forall2 (logs_request W private_key) (requested evs) (cr_tool_calls r) ∧
      Forall3 (performed W) (cr_tool_calls r) (cr_results r) (http_exchanges evs).
Proof.
  intros run. subst run. unfold process_agent_conversation.
  set (st := {| messages := _; all_tool_calls := []; all_tool_results := [] |}).
  set (tools := get_openai_tools available_tools).
  destruct (conversation_loop_bounded W tools tool_flow private_key
              (Z.to_nat max_iterations) st tr) as (evs & Htr & Hn).
  exists evs. repeat split; [done|done|..];
    destruct (conversation_loop W tools tool_flow private_key _ st tr)
      as [o tr'] eqn:Hrun; simpl in *; subst o tr';
    apply conversation_loop_ret in Hrun
      as (evs' & calls & ress & ->%app_inv_head & Hc & Hr & Hl & Hp);
    simpl in Hc, Hr; by rewrite ?Hc, ?Hr.
Qed.

Lemma process_agent_conversation_terminates_witness :
  ∃ r evs,
    (process_agent_conversation insistent_world "" "What is my balance?"
       ["get_balance"] ∅ None 3 []).1 = Ret r ∧
    (process_agent_conversation insistent_world "" "What is my balance?"
       ["get_balance"] ∅ None 3 []).2 = [] ++ evs ∧
    (provider_calls evs ≤ 3)%nat ∧
    Forall2 (logs_request insistent_world None) (requested evs) (cr_tool_calls r) ∧
    Forall3 (performed insistent_world) (cr_tool_calls r) (cr_results r)
      (http_exchanges evs).
Proof.
  destruct (process_agent_conversation_terminates insistent_world "" "What is my balance?"
              ["get_balance"] ∅ None 3 []) as (evs & Htr & Hn & Hlog).
  cbv zeta in Htr, Hlog.
  eexists _, evs. split; [vm_compute; reflexivity|].
  split; [exact Htr|]. split; [exact Hn|].
  apply Hlog. vm_compute. reflexivity.
Defined.

(** Through the endpoint the budget is the default of ten: a model that asks
    for a tool on every turn is cut off after ten provider calls, and the
    response carries the ten calls and their ten results. *)
Example insistent_model_stops_at_ten :
  let run := chat_with_agent insistent_world
               {| tools := [edge "get_balance" None];
                  user_message := "What is my balance?";
                  private_key := None |} [] in
  match run.1 with
  | Ret response =>
      agent_response response = max_iterations_notice ∧
      length (tool_calls response) = 10 ∧
      length (results response) = 10
  | Raise _ => False
  end ∧
  provider_calls run.2 = 10.
Proof. vm_compute. repeat split; reflexivity. Qed.

(** C2. In every value [process_agent_conversation] returns, by final answer
    or at the cap, the two logs have the same length; at each position the
    result is what [execute_tool] returned for the tool and parameters of the
    call record at that position, through the HTTP exchange at that position
    of the trace; and the tools in the call log are the tools the model asked
    for, in the order it emitted them within a turn, turn after turn. *)
Theorem logs_paired_in_request_order (W : World)
    (system_prompt user_message : string) (available_tools : list string)
    (tool_flow : gmap string string) (private_key : option string)
    (max_iterations : Z) (tr tr' : list Event) (r : ConversationResult) :
  process_agent_conversation W system_prompt user_message available_tools
    tool_flow private_key max_iterations tr = (Ret r, tr') →
  ∃ evs,
    tr' = tr ++ evs ∧
    length (cr_tool_calls r) = length (cr_results r) ∧
    (∀ i c res, cr_tool_calls r !! i = Some c → cr_results r !! i = Some res →
       result_tool res = call_tool c ∧
       ∃ x, http_exchanges evs !! i = Some x ∧ performed W c res x) ∧
    call_tool <$> cr_tool_calls r = tc_name <$> requested evs.
Proof.
  unfold process_agent_conversation.
  intros (evs & calls & ress & -> & Hc & Hr & Hl & Hp)%conversation_loop_ret.
  simpl in Hc, Hr. rewrite Hc, Hr. exists evs. repeat split.
  - by eapply Forall3_length_lm.
  - destruct (Forall3_lookup_l _ _ _ _ _ _ Hp H) as (res' & x & Hr' & _ & HP).
    rewrite H0 in Hr'. injection Hr' as <-. by apply performed_inv in HP as [? _].
  - destruct (Forall3_lookup_l _ _ _ _ _ _ Hp H) as (res' & x & Hr' & Hx & HP).
    rewrite H0 in Hr'. injection Hr' as <-. by exists x.
  - by eapply logs_request_names.
Qed.

Lemma logs_paired_in_request_order_witness :
  ∃ r tr',
    process_agent_conversation two_turn_world "" "Pay and check." ["transfer"; "get_balance"]
      ∅ None 10 [] = (Ret r, tr') ∧
    ∃ evs,
      tr' = [] ++ evs ∧
      length (cr_tool_calls r) = length (cr_results r) ∧
      (∀ i c res, cr_tool_calls r !! i = Some c → cr_results r !! i = Some res →
         result_tool res = call_tool c ∧
         ∃ x, http_exchanges evs !! i = Some x ∧ performed two_turn_world c res x) ∧
      call_tool <$> cr_tool_calls r = tc_name <$> requested evs.
Proof.
  eexists _, _. split; [vm_compute; reflexivity|].
  apply (logs_paired_in_request_order two_turn_world "" "Pay and check."
           ["transfer"; "get_balance"] ∅ None 10 []).
  vm_compute. reflexivity.
Defined.

(** ** Upfront validation *)

Lemma validate_tools_unknown available_tools :
  (∃ t, t ∈ available_tools ∧ TOOL_DEFINITIONS !! t = None) →
  ∃ t, t ∈ available_tools ∧ TOOL_DEFINITIONS !! t = None ∧
       validate_tools available_tools = Raise (HTTPException 400 ("Unknown tool: " +:+ t)).
Proof.
  induction available_tools as [|t0 l IH]; intros (t & Ht & Hu).
  - by apply elem_of_nil in Ht.
  - simpl. destruct (TOOL_DEFINITIONS !! t0) as [d|] eqn:Hd.
    + apply elem_of_cons in Ht as [->|Ht]; [congruence|].
      destruct IH as (t' & Ht' & Hu' & Hv); [by exists t|].
      exists t'. repeat split; [by right|done..].
    + exists t0. repeat split; [by left|done].
Qed.

(** C3 (the code departs from it). A request whose edge list names, as source
    or as declared successor, a tool the catalogue does not have is turned
    away before any provider or HTTP call: the trace is left as it was.  But
    the [HTTPException] with status 400 raised by the validation is caught by
    the handler's own [except Exception] and raised again with status 500, so
    the caller gets a server error, whose detail is the text of the first
    exception. *)
Theorem unknown_tool_answered_with_status_500 (W : World) (request : AgentRequest)
    (tr : list Event) (conn : ToolConnection) (unknown : string) :
  conn ∈ tools request →
  tool conn = unknown ∨ declared_successor conn = Some unknown →
  TOOL_DEFINITIONS !! unknown = None →
  ∃ t conn',
    conn' ∈ tools request ∧
    (tool conn' = t ∨ declared_successor conn' = Some t) ∧
    TOOL_DEFINITIONS !! t = None ∧
    chat_with_agent W request tr
    = (Raise (HTTPException 500
                (exn_str W (HTTPException 400 ("Unknown tool: " +:+ t)))), tr).
Proof.
  intros Hc Hn Hu.
  destruct (validate_tools_unknown (elements (compile_flow (tools request)).1))
    as (t & Ht & Hu' & Hv).
  { exists unknown. split; [|done]. apply elem_of_elements, compile_flow_tools. eauto. }
  apply elem_of_elements, compile_flow_tools in Ht as (conn' & Hc' & Hn').
  exists t, conn'. repeat split; [done..|].
  unfold chat_with_agent, chat_with_agent_try.
  by rewrite (bind_raise_eq _ _ tr (HTTPException 400 ("Unknown tool: " +:+ t)) tr);
    [|unfold lift; rewrite Hv].
Qed.

Lemma unknown_tool_answered_with_status_500_witness :
  ∃ t conn',
    conn' ∈ tools bridge_request ∧
    (tool conn' = t ∨ declared_successor conn' = Some t) ∧
    TOOL_DEFINITIONS !! t = None ∧
    chat_with_agent insistent_world bridge_request []
    = (Raise (HTTPException 500
                (exn_str insistent_world (HTTPException 400 ("Unknown tool: " +:+ t)))), []).
Proof.
  apply (unknown_tool_answered_with_status_500 insistent_world bridge_request []
           (edge "bridge" None) "bridge").
  - apply list_elem_of_further, list_elem_of_here.
  - left. reflexivity.
  - vm_compute. reflexivity.
Defined.

(** The same run, evaluated: status 500 and the detail Starlette gives the
    inner exception. *)
Example bridge_request_evaluated :
  chat_with_agent insistent_world bridge_request []
  = (Raise (HTTPException 500 "400: Unknown tool: bridge"), []).
Proof. vm_compute. reflexivity. Qed.

(** ** Malformed tool arguments *)

(** C5 (the code departs from it). When the arguments of a tool call are not
    valid JSON, [json.loads] raises inside the loop and nothing catches it.
    Wherever the call stands in its batch, once the calls before it are
    processed the conversation ends with that exception: no result is
    recorded for the call, the rest of the batch is not run, and the logs
    accumulated so far (those of [st1]) are not returned. *)
Theorem malformed_arguments_abort_conversation (W : World)
    (openai_tools : list FunctionSchema) (tool_flow : gmap string string)
    (private_key : option string) (n : nat) (st st1 : LoopState) (tr tr1 : list Event)
    (m : AssistantMessage) (pre post : list ToolCall) (tc : ToolCall) :
  chat_completions_create W tr (chat_request openai_tools (messages st)) = ProviderReply m →
  am_tool_calls m = pre ++ tc :: post →
  for_each (handle_tool_call W private_key) pre
    (push_message (AssistantMsg (am_content m) (am_tool_calls m)) st)
    (tr ++ [EvChat (chat_request openai_tools (messages st)) (ProviderReply m)])
  = (Ret st1, tr1) →
  json_loads W (tc_arguments tc) = None →
  conversation_loop W openai_tools tool_flow private_key (S n) st tr
  = (Raise (JSONDecodeError (tc_arguments tc)), tr1).
Proof.
  intros Hc Hb Hpre Hj.
  rewrite (conversation_loop_batch W _ _ _ _ _ _ _ Hc); [|rewrite Hb; by destruct pre].
  assert (resolved_parameters W private_key tc = Raise (JSONDecodeError (tc_arguments tc)))
    as Hr by (unfold resolved_parameters, loads; by rewrite Hj).
  erewrite bind_raise_eq; [done|].
  rewrite Hb at 1. rewrite for_each_app, (bind_ret_eq _ _ _ _ _ Hpre). simpl.
  erewrite bind_raise_eq; [done|]. by apply handle_tool_call_unresolved.
Qed.

Lemma malformed_arguments_abort_conversation_witness :
  conversation_loop garbling_world [] ∅ None 10 (fresh_state "Show my balance.") []
  = (Raise (JSONDecodeError "{"),
     [] ++ [EvChat (chat_request [] (messages (fresh_state "Show my balance.")))
              (turn [truncated_call])]).
Proof.
  apply (malformed_arguments_abort_conversation garbling_world [] ∅ None 9
           (fresh_state "Show my balance.")
           (push_message (AssistantMsg None [truncated_call]) (fresh_state "Show my balance."))
           [] _ {| am_content := None; am_tool_calls := [truncated_call] |}
           [] [] truncated_call).
  - vm_compute. reflexivity.
  - reflexivity.
  - reflexivity.
  - vm_compute. reflexivity.
Defined.

(** At the endpoint: the transfer of the first turn was carried out (its HTTP
    exchange is in the trace), the second turn has truncated arguments, and
    the caller receives status 500 and no log at all. *)
Example truncated_arguments_lose_the_logs :
  ∃ req out chat1 chat2,
    chat_with_agent truncating_world transfer_request []
    = (Raise (HTTPException 500 (sample_str (JSONDecodeError "{"))),
       [chat1; EvHttp req out; chat2]) ∧
    verb req = "POST" ∧ url req = backend +:+ "/transfer".
Proof. eexists _, _, _, _. split; [vm_compute; reflexivity|]. split; reflexivity. Qed.

(** ** The path placeholder *)






(** The local mapping after the placeholder step is empty, whatever else was
    supplied; the specified variant keeps the other fields. *)
Example balance_extra_field_dropped :
  substitute_address get_balance_def (object_value balance_args_extra)
  = Ret (backend +:+ "/balance/0xabc", JDict ∅) ∧
  substitute_address_as_specified get_balance_def (object_value balance_args_extra)
  = Ret (backend +:+ "/balance/0xabc", JDict {[ "unit" := JStr "wei" ]}).
Proof. split; vm_compute; reflexivity. Qed.

(** ** The caller's secret and the tool-call log *)

Lemma add_private_key_inv pk function_name args params :
  add_private_key pk function_name args = Ret params →
  params = args ∨
  ∃ secret d tool_def,
    pk = Some secret ∧ secret ≠ "" ∧
    TOOL_DEFINITIONS !! function_name = Some tool_def ∧
    has_property "privateKey" tool_def = true ∧
    args = JDict d ∧ d !! "privateKey" = None ∧
    params = JDict (<["privateKey" := JStr secret]> d).
Proof.
  unfold add_private_key.
  destruct pk as [[|a secret]|]; simpl; [by left; congruence| |by left; congruence].
  destruct (TOOL_DEFINITIONS !! function_name) as [tool_def|] eqn:Hd; [|done].
  destruct (has_property "privateKey" tool_def) eqn:Hp; [|by left; congruence].
  destruct args as [| | | |s|l|d]; simpl; try done.
  - destruct (str_contains "privateKey" s); [by left; congruence|done].
  - destruct (existsb (is_JStr "privateKey") l); [by left; congruence|done].
  - case_bool_decide as Hk; [by left; congruence|].
    intros [= <-]. right. exists (String a secret), d, tool_def.
    repeat split; try done. by apply eq_None_not_Some.
Qed.

Lemma add_private_key_added pk function_name args secret d :
  secret_is_added pk function_name args secret d →
  add_private_key pk function_name args
  = Ret (JDict (<["privateKey" := JStr secret]> d)).
Proof.
  intros (-> & Hs & (tool_def & Hd & Hp) & -> & Hno).
  unfold add_private_key. destruct secret as [|a secret]; [done|]. simpl.
  rewrite Hd, Hp. simpl. by rewrite Hno, bool_decide_eq_false_2 by by intros [? ?].
Qed.

Lemma logs_request_parameters W pk tc c :
  logs_request W pk tc c → logged_parameters W pk tc c.
Proof.
  intros [Hn Hr]. split; [done|].
  apply obind_ret_inv in Hr as (args & Hl & Hk).
  unfold loads in Hl. destruct (json_loads W (tc_arguments tc)) as [v|] eqn:Hj; [|done].
  injection Hl as ->. exists args. split; [done|].
  destruct (add_private_key_inv _ _ _ _ Hk)
    as [He|(secret & d & tool_def & -> & Hs & Hd & Hp & -> & Hno & He)].
  - right. split; [|done]. intros secret d Hadd.
    pose proof Hadd as (_ & _ & _ & Ha & Hno).
    rewrite (add_private_key_added _ _ _ _ _ Hadd) in Hk.
    injection Hk as Hk. rewrite He, Ha in Hk. injection Hk as Hk.
    apply (f_equal (λ m : gmap string json, m !! "privateKey")) in Hk.
    rewrite lookup_insert_eq, Hno in Hk. done.
  - left. exists secret, d. split; [|done]. repeat split; eauto.
Qed.

Lemma chat_with_agent_ret W request tr response tr' :
  chat_with_agent W request tr = (Ret response, tr') →
  ∃ result,
    process_agent_conversation W (build_system_prompt (tools request))
      (user_message request) (elements (compile_flow (tools request)).1)
      (compile_flow (tools request)).2 (private_key request) 10 tr
    = (Ret result, tr') ∧
    cr_agent_response result = Some (agent_response response) ∧
    tool_calls response = cr_tool_calls result ∧
    results response = cr_results result.
Proof.
  unfold chat_with_agent.
  destruct (chat_with_agent_try W request tr) as [[response'|e] tr1] eqn:Htry; [|done].
  intros [= -> ->]. unfold chat_with_agent_try in Htry.
  apply bind_ret_inv in Htry as (u & tr1 & [_ ->]%lift_ret_inv & Htry).
  apply bind_ret_inv in Htry as (result & tr2 & Hrun & [Hm ->]%lift_ret_inv).
  exists result. split; [done|]. unfold make_response in Hm.
  destruct (cr_agent_response result) as [text|]; [|done].
  by injection Hm as <-.
Qed.

(** C9 (as amended). The tool-call log of the response holds one entry for
    each tool call the model requested, in that order.  Whenever the caller
    supplied a non-empty secret, the called tool declares a [privateKey] field
    and the model's arguments are an object that has no such field, the entry
    holds those arguments with the secret added under ["privateKey"]: the
    secret is in the log.  In every other case the entry holds the arguments
    exactly as the model emitted them. *)
Theorem tool_call_log_holds_resolved_parameters (W : World) (request : AgentRequest)
    (tr tr' : list Event) (response : AgentResponse) :
  chat_with_agent W request tr = (Ret response, tr') →
  ∃ evs,
    tr' = tr ++ evs ∧
    Forall2 (logged_parameters W (private_key request)) (requested evs)
      (tool_calls response).
Proof.
  intros (result & Hrun & _ & -> & _)%chat_with_agent_ret.
  unfold process_agent_conversation in Hrun.
  apply conversation_loop_ret in Hrun as (evs & calls & ress & -> & Hc & _ & Hl & _).
  simpl in Hc. rewrite Hc. exists evs. split; [done|].
  eapply Forall2_impl; [done|]. apply logs_request_parameters.
Qed.

Lemma tool_call_log_holds_resolved_parameters_witness :
  ∃ response tr',
    chat_with_agent transfer_world secret_request [] = (Ret response, tr') ∧
    ∃ evs,
      tr' = [] ++ evs ∧
      Forall2 (logged_parameters transfer_world (private_key secret_request))
        (requested evs) (tool_calls response).
Proof.
  eexists _, _. split; [vm_compute; reflexivity|].
  apply (tool_call_log_holds_resolved_parameters transfer_world secret_request []).
  vm_compute. reflexivity.
Defined.

(** C9 as stated fails.  The caller supplies ["0xsecret"], the model asks for
    a transfer with arguments that hold no private key, and the log entry of
    the response holds the secret under ["privateKey"]. *)
Lemma secret_is_logged :
  (∃ response evs tc c,
     chat_with_agent transfer_world secret_request [] = (Ret response, [] ++ evs) ∧
     requested evs = [tc] ∧ tool_calls response = [c] ∧
     json_loads transfer_world (tc_arguments tc) = Some (object_value transfer_args) ∧
     field "privateKey" (object_value transfer_args) = None ∧
     field "privateKey" (call_parameters c) = Some (JStr "0xsecret")) ∧
  ¬ log_never_holds_secret.
Proof.
  assert (∃ response evs tc c,
     chat_with_agent transfer_world secret_request [] = (Ret response, [] ++ evs) ∧
     requested evs = [tc] ∧ tool_calls response = [c] ∧
     json_loads transfer_world (tc_arguments tc) = Some (object_value transfer_args) ∧
     field "privateKey" (object_value transfer_args) = None ∧
     field "privateKey" (call_parameters c) = Some (JStr "0xsecret")) as Hex
    by (eexists _, _, _, _; repeat split; vm_compute; reflexivity).
  split; [exact Hex|].
  destruct Hex as (response & evs & tc & c & Hrun & Hq & Hc & Hl & Hno & Hf).
  intros H.
  specialize (H transfer_world secret_request [] evs response "0xsecret" eq_refl Hrun).
  rewrite Hq, Hc in H. apply Forall2_cons_1 in H as [H _].
  destruct (H "privateKey" Hf) as (args & Hl' & Ha).
  rewrite Hl in Hl'. injection Hl' as <-. rewrite Hno in Ha. discriminate.
Qed.

(** The description of the log is exact: with the secret ["0xsecret"], an
    entry for the transfer call that holds the model's arguments without the
    secret is not one it admits. *)
Example entry_without_the_secret_is_excluded :
  ¬ logged_parameters transfer_world (Some "0xsecret")
      (call "call_1" "transfer" transfer_args)
      {| call_tool := "transfer"; call_parameters := object_value transfer_args |}.
Proof.
  assert (json_loads transfer_world (tc_arguments (call "call_1" "transfer" transfer_args))
          = Some (object_value transfer_args)) as Hdoc by (vm_compute; reflexivity).
  intros [_ (args & Hl & H)]. rewrite Hdoc in Hl. injection Hl as <-.
  destruct H as [(secret & d & (_ & _ & _ & Ha & Hno) & Hc)|[Hnone _]].
  - simpl in Hc. rewrite Ha in Hc. injection Hc as Hc.
    apply (f_equal (λ m : gmap string json, m !! "privateKey")) in Hc.
    rewrite lookup_insert_eq, Hno in Hc. done.
  - apply (Hnone "0xsecret" (list_to_map (prod_map id JStr <$> transfer_args))).
    split; [done|]. split; [done|]. split; [|split; [done|by vm_compute]].
    exists transfer_def. split; [by vm_compute|reflexivity].
Qed.

(** ** The forced continuation *)

Lemma bind_trace {A B} (c : M A) (k : A → M B) tr :
  (∃ evs, (c tr).2 = tr ++ evs) →
  (∀ a tr1, ∃ evs, (k a tr1).2 = tr1 ++ evs) →
  ∃ evs, (bind c k tr).2 = tr ++ evs.
Proof.
  intros [evs1 Hc] Hk. unfold bind.
  destruct (c tr) as [[a|e] tr1]; simpl in Hc; subst tr1; [|by exists evs1].
  destruct (Hk a (tr ++ evs1)) as [evs2 ->]. exists (evs1 ++ evs2). by rewrite app_assoc.
Qed.

(** An iteration begins with the provider call on the current history. *)
Lemma conversation_loop_first_event W openai_tools tool_flow private_key n st tr :
  ∃ out rest,
    (conversation_loop W openai_tools tool_flow private_key (S n) st tr).2
    = tr ++ EvChat (chat_request openai_tools (messages st)) out :: rest.
Proof.
  destruct (chat_completions_create W tr (chat_request openai_tools (messages st)))
    as [msg|m] eqn:Hc.
  - rewrite (conversation_loop_raises W _ _ _ _ _ _ _ Hc). by eexists _, [].
  - destruct (decide (am_tool_calls m = [])) as [Hb|Hb].
    + rewrite (conversation_loop_answer W _ _ _ _ _ _ _ Hc Hb). by eexists _, [].
    + rewrite (conversation_loop_batch W _ _ _ _ _ _ _ Hc Hb).
      match goal with
      | |- context [bind ?c ?k ?tr0] =>
          assert (∃ evs, (bind c k tr0).2 = tr0 ++ evs) as [evs Hevs]
      end.
      { apply bind_trace.
        - destruct (for_each_handle_trace W private_key (am_tool_calls m)
                      (push_message (AssistantMsg (am_content m) (am_tool_calls m)) st)
                      (tr ++ [EvChat (chat_request openai_tools (messages st))
                                (ProviderReply m)]))
            as (evs & Hevs & _). by exists evs.
        - intros st1 tr1. apply bind_trace; [exists []; by rewrite app_nil_r|].
          intros st2 tr2.
          destruct (conversation_loop_bounded W openai_tools tool_flow private_key n st2 tr2)
            as (evs & Hevs & _). by exists evs. }
      rewrite Hevs, <- app_assoc. by eexists _, evs.
Qed.


(** After a batch that was processed to the end, the loop carries on from the
    state that [continue_flow] leaves. *)
Lemma conversation_loop_continue W openai_tools tool_flow private_key n st tr m st1 tr1 c :
  chat_completions_create W tr (chat_request openai_tools (messages st)) = ProviderReply m →
  am_tool_calls m ≠ [] →
  for_each (handle_tool_call W private_key) (am_tool_calls m)
    (push_message (AssistantMsg (am_content m) (am_tool_calls m)) st)
    (tr ++ [EvChat (chat_request openai_tools (messages st)) (ProviderReply m)])
  = (Ret st1, tr1) →
  last (all_tool_calls st1) = Some c →
  conversation_loop W openai_tools tool_flow private_key (S n) st tr
  = conversation_loop W openai_tools tool_flow private_key n
      {| messages := messages st1 ++ flow_directive tool_flow (call_tool c);
         all_tool_calls := all_tool_calls st1;
         all_tool_results := all_tool_results st1 |} tr1.
Proof.
  intros Hc Hb Hfe Hl.
  rewrite (conversation_loop_batch W _ _ _ _ _ _ _ Hc Hb).
  rewrite (bind_ret_eq _ _ _ _ _ Hfe).
  pose proof (continue_flow_after tool_flow st1 c Hl) as Hf.
  by erewrite (bind_ret_eq (lift (continue_flow tool_flow st1)) _ tr1 _ tr1);
    [|unfold lift; rewrite Hf].
Qed.

Lemma conversation_loop_after_batch W openai_tools tool_flow private_key n st tr m
    pre tc st1 tr1 :
  chat_completions_create W tr (chat_request openai_tools (messages st)) = ProviderReply m →
  am_tool_calls m = pre ++ [tc] →
  for_each (handle_tool_call W private_key) (am_tool_calls m)
    (push_message (AssistantMsg (am_content m) (am_tool_calls m)) st)
    (tr ++ [EvChat (chat_request openai_tools (messages st)) (ProviderReply m)])
  = (Ret st1, tr1) →
  conversation_loop W openai_tools tool_flow private_key (S n) st tr
  = conversation_loop W openai_tools tool_flow private_key n
      {| messages := messages st1 ++ flow_directive tool_flow (tc_name tc);
         all_tool_calls := all_tool_calls st1;
         all_tool_results := all_tool_results st1 |} tr1.
Proof.
  intros Hc Hb Hfe.
  pose proof Hfe as Hfe'. rewrite Hb in Hfe'.
  apply for_each_handle_last in Hfe' as (c & Hl & Hn). rewrite <- Hn.
  apply (conversation_loop_continue W _ _ _ _ _ _ m); [done| |done..].
  rewrite Hb. by destruct pre.
Qed.

(** C4 (as amended). When [A → B] is the last edge of the list that declares
    a successor for [A], then after every batch of tool calls whose last
    executed call is [A], once the whole batch is processed, the directive
    naming [B] is appended to the history, and the next provider call, if the
    budget allows one, is issued on the history that ends with it. *)
Theorem directive_names_last_declared_successor (W : World)
    (conns : list ToolConnection) (A B : string) :
  last_successor A conns = Some B → forces_successor W conns A B.
Proof.
  intros HAB openai_tools pk n st st1 tr tr1 m pre tc Hc Hb Hn Hfe tool_flow st2.
  assert (conversation_loop W openai_tools tool_flow pk (S n) st tr
          = conversation_loop W openai_tools tool_flow pk n st2 tr1) as Heq.
  { rewrite (conversation_loop_after_batch W _ _ _ _ _ _ _ _ _ _ _ Hc Hb Hfe).
    unfold flow_directive. subst tool_flow. by rewrite Hn, compile_flow_lookup, HAB. }
  split; [done|]. intros n' ->. rewrite Heq.
  apply conversation_loop_first_event.
Qed.

Lemma directive_names_last_declared_successor_witness :
  ∃ st1 tr1,
    let tool_flow := (compile_flow ambiguous_edges).2 in
    let st2 := push_message (directive "get_balance") st1 in
    conversation_loop transfer_world [] tool_flow None 2 (fresh_state "Send 5 tokens.") []
    = conversation_loop transfer_world [] tool_flow None 1 st2 tr1 ∧
    ∀ n', 1 = S n' →
      ∃ out rest,
        (conversation_loop transfer_world [] tool_flow None 2
           (fresh_state "Send 5 tokens.") []).2
        = tr1 ++ EvChat (chat_request [] (messages st2)) out :: rest.
Proof.
  eexists _, _.
  apply (directive_names_last_declared_successor transfer_world ambiguous_edges
           "transfer" "get_balance" eq_refl [] None 1 (fresh_state "Send 5 tokens.") _
           [] _ transfer_turn [] (call "call_1" "transfer" transfer_args)).
  - vm_compute. reflexivity.
  - reflexivity.
  - reflexivity.
  - vm_compute. reflexivity.
Defined.

(** C4 as stated fails.  The list declares [transfer → swap] and, later,
    [transfer → get_balance]; after a batch that ends with [transfer] the
    directive that is appended names [get_balance], not [swap]. *)
Lemma later_edge_overrides_directive :
  (edge "transfer" (Some "swap") ∈ ambiguous_edges ∧
   ∃ r tr',
     conversation_loop transfer_world [] (compile_flow ambiguous_edges).2 None 1
       (fresh_state "Send 5 tokens.") [] = (Ret r, tr') ∧
     call_tool <$> cr_tool_calls r = ["transfer"] ∧
     last (cr_conversation_history r) = Some (directive "get_balance") ∧
     directive "get_balance" ≠ directive "swap") ∧
  ¬ (∀ (W : World) (conns : list ToolConnection) (A B : string),
       edge A (Some B) ∈ conns → forces_successor W conns A B).
Proof.
  split.
  - split; [apply list_elem_of_here|].
    eexists _, _. split; [vm_compute; reflexivity|].
    split; [vm_compute; reflexivity|]. split; [vm_compute; reflexivity|].
    discriminate.
  - intros H.
    pose (batch := for_each (handle_tool_call transfer_world None)
                     (am_tool_calls transfer_turn)
                     (push_message (AssistantMsg None (am_tool_calls transfer_turn))
                        (fresh_state "Send 5 tokens."))
                     [EvChat (chat_request [] (messages (fresh_state "Send 5 tokens.")))
                        (ProviderReply transfer_turn)]).
    pose (st1 := match batch.1 with Ret st' => st' | Raise _ => fresh_state "" end).
    destruct (H transfer_world ambiguous_edges "transfer" "swap"
                (list_elem_of_here _ _) [] None 0 (fresh_state "Send 5 tokens.") st1
                [] batch.2 transfer_turn [] (call "call_1" "transfer" transfer_args))
      as [Heq _].
    + vm_compute. reflexivity.
    + reflexivity.
    + reflexivity.
    + vm_compute. reflexivity.
    + vm_compute in Heq. discriminate Heq.
Qed.

(** C10. After a batch that was processed to the end, what the driver adds
    to the history is decided by the last tool of the batch alone: the
    directive naming its successor if that tool is a key of the successor
    map, nothing otherwise.  Tools earlier in the batch add no directive,
    whatever successors they have (the history after the iteration is the old
    one, the assistant turn, one tool message per call, and then at most that
    one directive), and the results play no part: [continue_flow] gives the
    same messages for every result log, failed results included. *)
Theorem directive_only_for_last_tool (W : World) (openai_tools : list FunctionSchema)
    (tool_flow : gmap string string) (private_key : option string) (n : nat)
    (st st1 : LoopState) (tr tr1 : list Event) (m : AssistantMessage)
    (pre : list ToolCall) (tc : ToolCall) :
  chat_completions_create W tr (chat_request openai_tools (messages st)) = ProviderReply m →
  am_tool_calls m = pre ++ [tc] →
  for_each (handle_tool_call W private_key) (am_tool_calls m)
    (push_message (AssistantMsg (am_content m) (am_tool_calls m)) st)
    (tr ++ [EvChat (chat_request openai_tools (messages st)) (ProviderReply m)])
  = (Ret st1, tr1) →
  let appended := flow_directive tool_flow (tc_name tc) in
  conversation_loop W openai_tools tool_flow private_key (S n) st tr
  = conversation_loop W openai_tools tool_flow private_key n
      {| messages := messages st1 ++ appended;
         all_tool_calls := all_tool_calls st1;
         all_tool_results := all_tool_results st1 |} tr1 ∧
  (∃ ress, messages st1
           = messages st ++ AssistantMsg (am_content m) (am_tool_calls m)
               :: zip_with (tool_message W) (am_tool_calls m) ress) ∧
  ((∃ next, appended = [directive next]) ↔ tc_name tc ∈ dom tool_flow) ∧
  (∀ next, tool_flow !! tc_name tc = Some next → appended = [directive next]) ∧
  (tc_name tc ∉ dom tool_flow → appended = []) ∧
  (∀ ress, continue_flow tool_flow
             {| messages := messages st1; all_tool_calls := all_tool_calls st1;
                all_tool_results := ress |}
           = Ret {| messages := messages st1 ++ appended;
                    all_tool_calls := all_tool_calls st1;
                    all_tool_results := ress |}).
Proof.
  intros Hc Hb Hfe appended. subst appended.
  split; [by eapply conversation_loop_after_batch|].
  split.
  { apply for_each_handle_ret in Hfe as (calls & ress & evs & _ & _ & Hm & _).
    exists ress. rewrite Hm. simpl. by rewrite <- app_assoc. }
  unfold flow_directive. repeat split.
  - intros [next Hd]. apply elem_of_dom.
    destruct (tool_flow !! tc_name tc) as [b|]; [by exists b|done].
  - intros [next Hd]%elem_of_dom. rewrite Hd. by exists next.
  - by intros next ->.
  - intros Hd%not_elem_of_dom. by rewrite Hd.
  - intros ress. rewrite Hb in Hfe.
    apply for_each_handle_last in Hfe as (c & Hl & Hn).
    rewrite <- Hn. by apply (continue_flow_after tool_flow (Build_LoopState _ _ _)).
Qed.

Lemma directive_only_for_last_tool_witness :
  ∃ st1 tr1 e,
    last (all_tool_results st1) = Some (ToolFailure "transfer" e) ∧
    let tool_flow : gmap string string :=
      {[ "transfer" := "get_balance"; "get_balance" := "swap" ]} in
    let appended := flow_directive tool_flow "transfer" in
    appended = [directive "get_balance"] ∧
    conversation_loop timeout_world [] tool_flow None 10 (fresh_state "Check, then pay.") []
    = conversation_loop timeout_world [] tool_flow None 9
        {| messages := messages st1 ++ appended;
           all_tool_calls := all_tool_calls st1;
           all_tool_results := all_tool_results st1 |} tr1 ∧
    (∃ ress, messages st1
             = messages (fresh_state "Check, then pay.")
               ++ AssistantMsg None (am_tool_calls balance_then_transfer)
                  :: zip_with (tool_message timeout_world)
                       (am_tool_calls balance_then_transfer) ress).
Proof.
  pose (batch := for_each (handle_tool_call timeout_world None)
                   (am_tool_calls balance_then_transfer)
                   (push_message (AssistantMsg None (am_tool_calls balance_then_transfer))
                      (fresh_state "Check, then pay."))
                   ([] ++ [EvChat (chat_request [] (messages (fresh_state "Check, then pay.")))
                             (ProviderReply balance_then_transfer)])).
  pose (st1 := match batch.1 with Ret st' => st' | Raise _ => fresh_state "" end).
  exists st1, batch.2, "Read timed out. (read timeout=60)".
  split; [vm_compute; reflexivity|]. split; [vm_compute; reflexivity|].
  destruct (directive_only_for_last_tool timeout_world []
              {[ "transfer" := "get_balance"; "get_balance" := "swap" ]} None 9
              (fresh_state "Check, then pay.") st1 [] batch.2 balance_then_transfer
              [call "call_1" "get_balance" balance_args]
              (call "call_2" "transfer" transfer_args)) as (H1 & H2 & _).
  - vm_compute. reflexivity.
  - reflexivity.
  - vm_compute. reflexivity.
  - split; [exact H1|exact H2].
Defined.

(** ** Transport failures *)

(** C6. When the HTTP call of a tool invocation raises a
    [RequestException] (timeout, refused connection, error status),
    [execute_tool] returns the record with [success] false and the text of
    the exception; it does not raise.  The driver appends that record and its
    tool message and goes on with the rest of the batch; once the batch is
    processed the loop carries on with the failed result in its log and its
    message in the history, and if the budget allows another iteration the
    next provider call is issued on that history. *)
Theorem transport_failure_is_recorded (W : World) (openai_tools : list FunctionSchema)
    (tool_flow : gmap string string) (private_key : option string) (n : nat)
    (st st1 : LoopState) (tr tr1 : list Event) (m : AssistantMessage)
    (pre post : list ToolCall) (tc : ToolCall) (params : json) (tool_def : ToolDef)
    (target : string * json) (e : string) :
  chat_completions_create W tr (chat_request openai_tools (messages st)) = ProviderReply m →
  am_tool_calls m = pre ++ tc :: post →
  for_each (handle_tool_call W private_key) pre
    (push_message (AssistantMsg (am_content m) (am_tool_calls m)) st)
    (tr ++ [EvChat (chat_request openai_tools (messages st)) (ProviderReply m)])
  = (Ret st1, tr1) →
  resolved_parameters W private_key tc = Ret params →
  TOOL_DEFINITIONS !! tc_name tc = Some tool_def →
  substitute_address tool_def params = Ret target →
  http_send W tr1 (request_of tool_def target) = RequestException e →
  let failed := ToolFailure (tc_name tc) e in
  let tr2 := tr1 ++ [EvHttp (request_of tool_def target) (RequestException e)] in
  let st2 := {| messages := messages st1 ++ [tool_message W tc failed];
                all_tool_calls := all_tool_calls st1 ++
                  [{| call_tool := tc_name tc; call_parameters := params |}];
                all_tool_results := all_tool_results st1 ++ [failed] |} in
  success failed = false ∧
  execute_tool W (tc_name tc) params tr1 = (Ret failed, tr2) ∧
  handle_tool_call W private_key st1 tc tr1 = (Ret st2, tr2) ∧
  ∀ st3 tr3,
    for_each (handle_tool_call W private_key) post st2 tr2 = (Ret st3, tr3) →
    ∃ st4,
      conversation_loop W openai_tools tool_flow private_key (S n) st tr
      = conversation_loop W openai_tools tool_flow private_key n st4 tr3 ∧
      failed ∈ all_tool_results st4 ∧
      tool_message W tc failed ∈ messages st4 ∧
      ∀ n', n = S n' →
        ∃ out rest,
          (conversation_loop W openai_tools tool_flow private_key (S n) st tr).2
          = tr3 ++ EvChat (chat_request openai_tools (messages st4)) out :: rest.
Proof.
  intros Hc Hb Hpre Hp Hd Hs Hh failed tr2 st2.
  assert (execute_tool W (tc_name tc) params tr1 = (Ret failed, tr2)) as Hx.
  { rewrite (execute_tool_known W _ _ _ _ tr1 Hd Hs). by rewrite Hh. }
  assert (handle_tool_call W private_key st1 tc tr1 = (Ret st2, tr2)) as Hcall.
  { rewrite (handle_tool_call_resolved W _ _ _ _ _ Hp).
    by rewrite (bind_ret_eq _ _ _ _ _ Hx). }
  repeat split; [done..|].
  intros st3 tr3 Hpost.
  assert (for_each (handle_tool_call W private_key) (am_tool_calls m)
            (push_message (AssistantMsg (am_content m) (am_tool_calls m)) st)
            (tr ++ [EvChat (chat_request openai_tools (messages st)) (ProviderReply m)])
          = (Ret st3, tr3)) as Hbatch.
  { rewrite Hb at 1. rewrite for_each_app, (bind_ret_eq _ _ _ _ _ Hpre). simpl.
    by rewrite (bind_ret_eq _ _ _ _ _ Hcall). }
  apply for_each_handle_ret in Hpost as (calls & ress & evs & Hc3 & Hr3 & Hm3 & _).
  simpl in Hc3, Hr3, Hm3.
  destruct (last (all_tool_calls st3)) as [c|] eqn:Hl.
  2:{ rewrite Hc3, <- app_assoc, last_None in Hl. by destruct (all_tool_calls st1). }
  assert (am_tool_calls m ≠ []) as Hne by (rewrite Hb; by destruct pre).
  pose proof (conversation_loop_continue W openai_tools tool_flow private_key n
                st tr m st3 tr3 c Hc Hne Hbatch Hl) as Heq.
  eexists. split; [exact Heq|]. repeat split.
  - simpl. rewrite Hr3. set_solver.
  - simpl. rewrite Hm3. set_solver.
  - intros n' ->. rewrite Heq. apply conversation_loop_first_event.
Qed.

Lemma transport_failure_is_recorded_witness :
  let st0 := fresh_state "Check, then pay." in
  let tc := call "call_1" "get_balance" balance_args in
  let failed := ToolFailure "get_balance" "Read timed out. (read timeout=60)" in
  execute_tool timeout_world "get_balance" (object_value balance_args)
    ([] ++ [EvChat (chat_request [] (messages st0)) (ProviderReply balance_then_transfer)])
  = (Ret failed,
     ([] ++ [EvChat (chat_request [] (messages st0)) (ProviderReply balance_then_transfer)])
     ++ [EvHttp (request_of get_balance_def (backend +:+ "/balance/0xabc", JDict ∅))
           (RequestException "Read timed out. (read timeout=60)")]) ∧
  ∃ st4 tr3,
    conversation_loop timeout_world [] ∅ None 10 st0 []
    = conversation_loop timeout_world [] ∅ None 9 st4 tr3 ∧
    failed ∈ all_tool_results st4 ∧
    tool_message timeout_world tc failed ∈ messages st4 ∧
    ∃ out rest,
      (conversation_loop timeout_world [] ∅ None 10 st0 []).2
      = tr3 ++ EvChat (chat_request [] (messages st4)) out :: rest.
Proof.
  intros st0 tc failed.
  pose (tr1 := [] ++ [EvChat (chat_request [] (messages st0))
                        (ProviderReply balance_then_transfer)]).
  pose (st1 := push_message (AssistantMsg None (am_tool_calls balance_then_transfer)) st0).
  pose (target := (backend +:+ "/balance/0xabc", JDict ∅) : string * json).
  pose (tr2 := tr1 ++ [EvHttp (request_of get_balance_def target)
                         (RequestException "Read timed out. (read timeout=60)")]).
  pose (st2 := {| messages := messages st1 ++ [tool_message timeout_world tc failed];
                  all_tool_calls := all_tool_calls st1 ++
                    [{| call_tool := "get_balance";
                        call_parameters := object_value balance_args |}];
                  all_tool_results := all_tool_results st1 ++ [failed] |}).
  pose (rest := for_each (handle_tool_call timeout_world None)
                  [call "call_2" "transfer" transfer_args] st2 tr2).
  pose (st3 := match rest.1 with Ret st' => st' | Raise _ => st0 end).
  destruct (transport_failure_is_recorded timeout_world [] ∅ None 9 st0 st1 [] tr1
              balance_then_transfer [] [call "call_2" "transfer" transfer_args] tc
              (object_value balance_args) get_balance_def target
              "Read timed out. (read timeout=60)") as (_ & Hx & _ & Hloop).
  - vm_compute. reflexivity.
  - reflexivity.
  - reflexivity.
  - vm_compute. reflexivity.
  - vm_compute. reflexivity.
  - vm_compute. reflexivity.
  - reflexivity.
  - split; [exact Hx|].
    destruct (Hloop st3 rest.2) as (st4 & Heq & Hr & Hm & Hnext);
      [vm_compute; reflexivity|].
    exists st4, rest.2. repeat split; [exact Heq|exact Hr|exact Hm|].
    apply (Hnext 8 eq_refl).
Defined.

(** * Further properties of the code *)

(** ** Strings *)

Lemma prefix_app_self p s : String.prefix p (p +:+ s) = true.
Proof.
  induction p as [|a p IH]; simpl; [by destruct s|].
  by destruct (Ascii.ascii_dec a a).
Qed.

Lemma prefix_app_l p s post : String.prefix p s = true → String.prefix p (s +:+ post) = true.
Proof.
  revert p. induction s as [|b s IH]; intros [|a p]; simpl; try done.
  - by destruct post.
  - destruct (Ascii.ascii_dec a b); [apply IH|done].
Qed.

Lemma str_contains_app_r needle pre s :
  str_contains needle s = true → str_contains needle (pre +:+ s) = true.
Proof.
  intros H. induction pre as [|c pre IH]; simpl; [done|].
  rewrite IH. apply orb_true_r.
Qed.

Lemma str_contains_app_l needle s post :
  str_contains needle s = true → str_contains needle (s +:+ post) = true.
Proof.
  induction s as [|c s IH]; simpl.
  - rewrite orb_false_r. intros H. destruct needle; [|done].
    destruct post; simpl; [done|]. by destruct post.
  - intros [H|H]%orb_true_iff.
    + apply orb_true_iff. left.
      by apply (prefix_app_l needle (String c s) post).
    + rewrite (IH H). apply orb_true_r.
Qed.

Lemma str_contains_prefix p s : String.prefix p s = true → str_contains p s = true.
Proof. intros H. destruct s; unfold str_contains; fold str_contains; by rewrite H. Qed.

Lemma str_contains_self s post : str_contains s (s +:+ post) = true.
Proof. apply str_contains_prefix, prefix_app_self. Qed.

Lemma str_contains_concat x l : x ∈ l → str_contains x (concat_strings l) = true.
Proof.
  induction 1 as [x l|x y l _ IH]; simpl.
  - apply str_contains_self.
  - by apply str_contains_app_r.
Qed.

(** ** [build_system_prompt] *)

Lemma declared_successor_truthy conn :
  declared_successor conn = None ↔ truthy (next_tool conn) = false.
Proof. unfold declared_successor. by destruct (next_tool conn) as [[|a s]|]. Qed.

Lemma foldl_add_connection_empty conns acc :
  (foldl add_connection acc conns).2 = ∅ ↔
  acc.2 = ∅ ∧ existsb (λ conn, truthy (next_tool conn)) conns = false.
Proof.
  revert acc. induction conns as [|conn conns IH]; intros acc; simpl; [naive_solver|].
  rewrite IH, add_connection_declared, orb_false_iff.
  destruct (declared_successor conn) as [nt|] eqn:Hd; simpl.
  - split; [intros [H _]; by apply insert_non_empty in H|].
    intros (_ & Ht & _). apply declared_successor_truthy in Ht. congruence.
  - apply declared_successor_truthy in Hd. naive_solver.
Qed.

Lemma build_system_prompt_shape (conns : list ToolConnection) :
  build_system_prompt conns
  = if decide ((compile_flow conns).2 = ∅)
    then ((prompt_header +:+ concat_strings (tool_line <$> elements (compile_flow conns).1))
          +:+ prompt_independent) +:+ prompt_rules
    else ((prompt_header +:+ concat_strings (tool_line <$> elements (compile_flow conns).1))
          +:+ prompt_flow_header
          +:+ concat_strings (flow_line <$> foldl add_flow_item [] conns)
          +:+ prompt_sequential) +:+ prompt_rules.
Proof.
  unfold build_system_prompt.
  destruct (decide ((compile_flow conns).2 = ∅)) as [He|He].
  - apply foldl_add_connection_empty in He as [_ ->]. done.
  - destruct (existsb _ conns) eqn:Hs; [done|].
    destruct He. apply foldl_add_connection_empty. done.
Qed.

(** X1. The prompt carries the TOOL EXECUTION FLOW section, with its
    SEQUENTIAL EXECUTION INSTRUCTIONS, exactly when the successor map the
    driver works with is not empty, and the plain INSTRUCTIONS section
    exactly when it is empty: the flag [has_sequential], computed with
    [any(...)], and the map, computed by the loop, never disagree. *)
Theorem prompt_flow_section_iff_successors (conns : list ToolConnection) :
  let tools_part :=
    prompt_header +:+ concat_strings (tool_line <$> elements (compile_flow conns).1) in
  build_system_prompt conns
  = if decide ((compile_flow conns).2 = ∅)
    then (tools_part +:+ prompt_independent) +:+ prompt_rules
    else (tools_part +:+ prompt_flow_header
          +:+ concat_strings (flow_line <$> foldl add_flow_item [] conns)
          +:+ prompt_sequential) +:+ prompt_rules.
Proof. intros tools_part. apply build_system_prompt_shape. Qed.

Lemma dict_assign_keys k v (d : list (string * string)) :
  (dict_assign k v d).*1 = if decide (k ∈ d.*1) then d.*1 else d.*1 ++ [k].
Proof.
  induction d as [|[k' v'] d IH]; [done|].
  simpl dict_assign. case_bool_decide as Hk; rewrite !fmap_cons; simpl fst.
  - subst. rewrite decide_True; [done|]. by left.
  - rewrite IH. destruct (decide (k ∈ d.*1)) as [Hin|Hin].
    + rewrite decide_True; [done|]. by right.
    + rewrite decide_False; [done|]. intros [?|?]%elem_of_cons; congruence.
Qed.

Lemma flow_items_NoDup conns (d : list (string * string)) :
  NoDup d.*1 → NoDup (foldl add_flow_item d conns).*1.
Proof.
  revert d. induction conns as [|conn conns IH]; intros d Hd; simpl; [done|].
  apply IH. rewrite add_flow_item_declared.
  destruct (declared_successor conn) as [nt|]; [|done].
  rewrite dict_assign_keys. destruct (decide (tool conn ∈ d.*1)); [done|].
  apply NoDup_app. split; [done|]. split; [|apply NoDup_singleton].
  intros x Hx ->%list_elem_of_singleton. done.
Qed.

(** X2. The flow lines of the prompt are the entries of the successor map,
    one line per source: no source gets two lines, and for every entry
    [a → b] of the map the prompt says that after [a] the model must
    immediately call [b]. *)
Theorem prompt_states_every_successor (conns : list ToolConnection) :
  foldl add_flow_item [] conns ≡ₚ map_to_list (compile_flow conns).2 ∧
  ∀ a b, (compile_flow conns).2 !! a = Some b →
         str_contains ("- After " +:+ a +:+ " completes, YOU MUST IMMEDIATELY call "
                       +:+ b +:+ newline)
           (build_system_prompt conns) = true.
Proof.
  assert (foldl add_flow_item [] conns ≡ₚ map_to_list (compile_flow conns).2) as Hp.
  { unfold compile_flow. rewrite <- (foldl_add_flow_item conns [] (∅, ∅)) by done.
    symmetry. apply map_to_list_to_map, flow_items_NoDup. constructor. }
  split; [done|]. intros a b Hab.
  rewrite build_system_prompt_shape.
  destruct (decide _) as [He|_]; [by rewrite He in Hab|].
  apply str_contains_app_l, str_contains_app_r, str_contains_app_r, str_contains_app_l.
  apply str_contains_concat.
  apply (list_elem_of_fmap_2 flow_line _ (a, b)).
  rewrite Hp. by apply elem_of_map_to_list.
Qed.

Lemma prompt_states_every_successor_witness :
  str_contains ("- After transfer completes, YOU MUST IMMEDIATELY call get_balance"
                +:+ newline)
    (build_system_prompt ambiguous_edges) = true.
Proof.
  apply (proj2 (prompt_states_every_successor ambiguous_edges) "transfer" "get_balance").
  vm_compute. reflexivity.
Defined.

(** X3. Every declared tool that the catalogue has is listed in the prompt
    with its catalogue description, whether or not the flow section
    follows. *)
Theorem prompt_lists_every_known_tool (conns : list ToolConnection)
    (t : string) (tool_def : ToolDef) :
  t ∈ (compile_flow conns).1 →
  TOOL_DEFINITIONS !! t = Some tool_def →
  str_contains (newline +:+ "- " +:+ t +:+ ": " +:+ description tool_def +:+ newline)
    (build_system_prompt conns) = true.
Proof.
  intros Ht Hd. rewrite build_system_prompt_shape.
  assert (str_contains (newline +:+ "- " +:+ t +:+ ": " +:+ description tool_def +:+ newline)
            (prompt_header +:+ concat_strings (tool_line <$> elements (compile_flow conns).1))
          = true) as H.
  { apply str_contains_app_r, str_contains_concat.
    replace (newline +:+ "- " +:+ t +:+ ": " +:+ description tool_def +:+ newline)
      with (tool_line t) by (unfold tool_line; by rewrite Hd).
    apply list_elem_of_fmap_2. by apply elem_of_elements. }
  destruct (decide _); by apply str_contains_app_l, str_contains_app_l.
Qed.

Lemma prompt_lists_every_known_tool_witness :
  str_contains (newline +:+ "- transfer: " +:+ description transfer_def +:+ newline)
    (build_system_prompt ambiguous_edges) = true.
Proof.
  apply (prompt_lists_every_known_tool ambiguous_edges "transfer" transfer_def).
  - apply compile_flow_tools. exists (edge "transfer" (Some "swap")).
    split; [apply list_elem_of_here|]. by left.
  - vm_compute. reflexivity.
Defined.

(** ** The catalogue, [get_openai_tools], [list_tools] and validation *)

Lemma catalogue_names tool_name tool_def :
  TOOL_DEFINITIONS !! tool_name = Some tool_def → name tool_def = tool_name.
Proof.
  intros H%catalogue_lookup. unfold catalogue_entries in H.
  repeat (apply elem_of_cons in H as [[= -> ->]|H]; [done|]).
  by apply elem_of_nil in H.
Qed.

Lemma catalogue_post tool_name tool_def :
  TOOL_DEFINITIONS !! tool_name = Some tool_def →
  tool_name ≠ "get_balance" →
  method tool_def = "POST" ∧ str_contains "{address}" (endpoint tool_def) = false.
Proof.
  intros H%catalogue_lookup Hn. unfold catalogue_entries in H.
  repeat (apply elem_of_cons in H as [[= -> ->]|H]; [done || by vm_compute|]).
  by apply elem_of_nil in H.
Qed.

Lemma catalogue_keyless tool_name tool_def :
  TOOL_DEFINITIONS !! tool_name = Some tool_def →
  has_property "privateKey" tool_def = bool_decide (tool_name ∉ keyless_tools).
Proof.
  intros H%catalogue_lookup. unfold catalogue_entries in H.
  repeat (apply elem_of_cons in H as [[= -> ->]|H]; [by vm_compute|]).
  by apply elem_of_nil in H.
Qed.

Lemma listed_iff_known tool_name :
  tool_name ∈ list_tools.1 ↔ is_Some (TOOL_DEFINITIONS !! tool_name).
Proof.
  change (tool_name ∈ catalogue_entries.*1 ↔
          is_Some ((list_to_map catalogue_entries : gmap string ToolDef) !! tool_name)).
  rewrite <- elem_of_dom, dom_list_to_map_L. by rewrite elem_of_list_to_set.
Qed.

Lemma get_openai_tools_filter (tool_names : list string) :
  fn_name <$> get_openai_tools tool_names
  = filter (λ n, is_Some (TOOL_DEFINITIONS !! n)) tool_names.
Proof.
  unfold get_openai_tools. induction tool_names as [|n l IH]; [done|].
  rewrite filter_cons. simpl omap.
  destruct (TOOL_DEFINITIONS !! n) as [d|] eqn:Hd; simpl.
  - rewrite (catalogue_names _ _ Hd). f_equal. exact IH.
  - exact IH.
Qed.

(** X4. [get_openai_tools] offers one function schema per listed name that
    the catalogue has, in the order of the list and with that name; names
    the catalogue does not have are passed over without an error, and a
    name listed twice is offered twice. *)
Theorem get_openai_tools_names (tool_names : list string) :
  fn_name <$> get_openai_tools tool_names
  = filter (λ n, is_Some (TOOL_DEFINITIONS !! n)) tool_names.
Proof. apply get_openai_tools_filter. Qed.

Lemma validate_tools_known available_tools :
  validate_tools available_tools = Ret () ↔
  Forall (λ n, is_Some (TOOL_DEFINITIONS !! n)) available_tools.
Proof.
  induction available_tools as [|t l IH]; simpl; [by split; [constructor|]|].
  destruct (TOOL_DEFINITIONS !! t) as [d|] eqn:Hd.
  - rewrite IH. split; [intros H; constructor; eauto|by inversion 1].
  - split; [done|]. inversion 1 as [|? ? [? Hs]]. congruence.
Qed.

(** X5. The validation of [chat_with_agent] lets a list of tools pass exactly
    when every entry is among the names that [list_tools] returns; otherwise
    it stops at the first entry, in list order, that is not, and raises the
    exception with status 400 whose detail names that entry. *)
Theorem validation_accepts_listed_tools (available_tools : list string) :
  (validate_tools available_tools = Ret () ↔
   ∀ n, n ∈ available_tools → n ∈ list_tools.1) ∧
  ∀ known t rest,
    available_tools = known ++ t :: rest →
    (∀ n, n ∈ known → n ∈ list_tools.1) →
    t ∉ list_tools.1 →
    validate_tools available_tools = Raise (HTTPException 400 ("Unknown tool: " +:+ t)).
Proof.
  split.
  - rewrite validate_tools_known, Forall_forall.
    by setoid_rewrite listed_iff_known.
  - intros known t rest -> Hk Ht.
    induction known as [|k known IH]; simpl.
    + destruct (TOOL_DEFINITIONS !! t) as [d|] eqn:Hd; [|done].
      destruct Ht. apply listed_iff_known. eauto.
    + assert (is_Some (TOOL_DEFINITIONS !! k)) as [d Hd]
        by (apply listed_iff_known, Hk; by left).
      rewrite Hd.
      apply IH. intros n Hn. apply Hk. by right.
Qed.

Lemma validation_accepts_listed_tools_witness :
  validate_tools (["transfer"; "swap"] ++ "bridge" :: ["airdrop"; "teleport"])
  = Raise (HTTPException 400 ("Unknown tool: " +:+ "bridge")).
Proof.
  apply (proj2 (validation_accepts_listed_tools _) ["transfer"; "swap"] "bridge"
           ["airdrop"; "teleport"] eq_refl).
  - intros n Hn. apply listed_iff_known.
    apply elem_of_cons in Hn as [->|Hn]; [by vm_compute; eauto|].
    apply elem_of_cons in Hn as [->|Hn]; [by vm_compute; eauto|].
    by apply elem_of_nil in Hn.
  - intros Hb%listed_iff_known. vm_compute in Hb. by destruct Hb.
Defined.

Lemma chat_with_agent_unknown W request tr t :
  t ∈ (compile_flow (tools request)).1 →
  TOOL_DEFINITIONS !! t = None →
  ∃ detail, chat_with_agent W request tr = (Raise (HTTPException 500 detail), tr).
Proof.
  intros Ht Hu.
  destruct (validate_tools_unknown (elements (compile_flow (tools request)).1))
    as (t' & _ & _ & Hv).
  { exists t. split; [by apply elem_of_elements|done]. }
  eexists. unfold chat_with_agent, chat_with_agent_try.
  by rewrite (bind_raise_eq _ _ tr (HTTPException 400 ("Unknown tool: " +:+ t')) tr);
    [|unfold lift; rewrite Hv].
Qed.

(** X6. Seven of the ten tool types of the workflow builder are catalogue
    names of the agent; [stt_balance_fetch], [fetch_token_price] and
    [deposit_with_yield_prediction] are not.  A request to the agent whose
    edges name one of these three, as source or as successor, is turned away
    with status 500 before any provider or HTTP call. *)
Theorem builder_only_tools_are_rejected :
  (∀ t, t ∈ get_available_tools →
        (TOOL_DEFINITIONS !! t = None ↔ t ∈ builder_only_tools)) ∧
  ∀ (W : World) (request : AgentRequest) (tr : list Event) (conn : ToolConnection) (t : string),
    conn ∈ tools request →
    tool conn = t ∨ declared_successor conn = Some t →
    t ∈ builder_only_tools →
    ∃ detail, chat_with_agent W request tr = (Raise (HTTPException 500 detail), tr).
Proof.
  split.
  - intros t Ht. unfold get_available_tools, AVAILABLE_TOOLS in Ht.
    repeat (apply elem_of_cons in Ht as [->|Ht];
            [split; intros H;
             [first [vm_compute in H; discriminate H
                    |apply (bool_decide_unpack _); vm_compute; exact I]
             |first [vm_compute; reflexivity
                    |apply (bool_decide_pack _) in H; vm_compute in H; destruct H]]|]).
    by apply elem_of_nil in Ht.
  - intros W request tr conn t Hc Hn Ht.
    apply (chat_with_agent_unknown W request tr t).
    + apply compile_flow_tools. eauto.
    + unfold builder_only_tools in Ht.
      repeat (apply elem_of_cons in Ht as [->|Ht]; [by vm_compute|]).
      by apply elem_of_nil in Ht.
Qed.

Lemma builder_only_tools_are_rejected_witness :
  ∃ detail,
    chat_with_agent insistent_world builder_request []
    = (Raise (HTTPException 500 detail), []).
Proof.
  apply (proj2 builder_only_tools_are_rejected insistent_world builder_request []
           (edge "airdrop" (Some "deposit_with_yield_prediction"))
           "deposit_with_yield_prediction").
  - apply list_elem_of_here.
  - right. reflexivity.
  - apply (bool_decide_unpack _). vm_compute. exact I.
Defined.

(** ** [execute_tool] *)

Lemma substitute_address_raises tool_def parameters e :
  substitute_address tool_def parameters = Raise e →
  str_contains "{address}" (endpoint tool_def) = true ∧ e = TypeError.
Proof.
  unfold substitute_address.
  destruct (str_contains "{address}" (endpoint tool_def)); [|done].
  intros H. split; [done|].
  destruct parameters as [| | | |s|l|d]; simpl in H; try by injection H.
  - destruct (str_contains "address" s); simpl in H; [by injection H|done].
  - destruct (existsb (is_JStr "address") l); simpl in H; [by injection H|done].
  - case_bool_decide as Hk; [|done]. destruct Hk as [v Hv]. rewrite Hv in H.
    simpl in H. destruct v; simpl in H; try by injection H.
    by destruct (bool_decide (method tool_def = "GET")).
Qed.

Lemma substitute_address_unusable tool_def parameters e :
  str_contains "{address}" (endpoint tool_def) = true →
  substitute_address tool_def parameters = Raise e ↔
  address_unusable parameters = true ∧ e = TypeError.
Proof.
  intros Hp. unfold substitute_address. rewrite Hp.
  destruct parameters as [| | | |s|l|d]; simpl; try naive_solver.
  - destruct (str_contains "address" s); simpl; naive_solver.
  - destruct (existsb (is_JStr "address") l); simpl; naive_solver.
  - destruct (d !! "address") as [v|] eqn:Hv.
    + rewrite bool_decide_eq_true_2 by eauto. simpl.
      destruct v; simpl; try naive_solver.
      destruct (bool_decide (method tool_def = "GET")); naive_solver.
    + rewrite bool_decide_eq_false_2 by (by intros [? ?]). naive_solver.
Qed.

(** X7. [execute_tool] raises without having called [requests] in exactly two
    cases: with [ValueError] for a name the catalogue does not have, and with
    [TypeError] for [get_balance] when the parameters cannot be tested for
    an address or hold one that cannot be taken out as a string.  So, before
    the request, parameters of no shape raise for any other catalogue tool,
    the unsupported-verb error is out of reach and no [KeyError] escapes. *)
Theorem execute_tool_raises_before_request (W : World) (tool_name : string)
    (parameters : json) (tr : list Event) (e : exn) :
  execute_tool W tool_name parameters tr = (Raise e, tr) ↔
  (TOOL_DEFINITIONS !! tool_name = None ∧
   e = ValueError ("Unknown tool: " +:+ tool_name)) ∨
  (tool_name = "get_balance" ∧ address_unusable parameters = true ∧ e = TypeError).
Proof.
  split.
  - intros H. destruct (TOOL_DEFINITIONS !! tool_name) as [d|] eqn:Hd.
    + destruct (substitute_address d parameters) as [target|e'] eqn:Hs.
      * by rewrite (execute_tool_known W _ _ _ _ tr Hd Hs) in H.
      * unfold execute_tool in H. rewrite Hd in H.
        rewrite (bind_raise_eq _ _ tr e' tr) in H by (unfold lift; by rewrite Hs).
        injection H as <-. right.
        destruct (substitute_address_raises _ _ _ Hs) as [Hp _].
        apply (substitute_address_unusable _ _ _ Hp) in Hs as [Hu ->].
        by destruct (catalogue_placeholder _ _ Hd Hp).
    + unfold execute_tool in H. rewrite Hd in H. injection H as <-. auto.
  - intros [[Hd ->]|(-> & Hu & ->)]; unfold execute_tool.
    + by rewrite Hd.
    + change (TOOL_DEFINITIONS !! "get_balance") with (Some get_balance_def).
      apply bind_raise_eq. unfold lift. f_equal.
      by apply substitute_address_unusable.
Qed.

Lemma execute_tool_raises_before_request_witness :
  address_unusable (JDict {[ "address" := JInt 7 ]}) = true ∧
  execute_tool insistent_world "get_balance" (JDict {[ "address" := JInt 7 ]}) []
  = (Raise TypeError, []).
Proof.
  split; [vm_compute; reflexivity|].
  apply (proj2 (execute_tool_raises_before_request insistent_world "get_balance"
                  (JDict {[ "address" := JInt 7 ]}) [] TypeError)).
  right. split; [reflexivity|]. split; [vm_compute; reflexivity|reflexivity].
Defined.

(** X8. For every catalogue tool other than [get_balance], whatever the
    shape of the parameters, [execute_tool] looks at nothing in them and
    makes exactly one call into [requests]: a POST on the catalogue endpoint
    with the parameters, as they are, as its [json] argument.  When that call
    yields a decoded body the result is a success with that body; when it
    raises a [RequestException] the result is a failure with its text. *)
Theorem post_tools_send_parameters_unchanged (W : World) (tool_name : string)
    (tool_def : ToolDef) (parameters : json) (tr : list Event) :
  TOOL_DEFINITIONS !! tool_name = Some tool_def →
  tool_name ≠ "get_balance" →
  let req := {| verb := "POST"; url := endpoint tool_def; payload := Some parameters |} in
  (execute_tool W tool_name parameters tr).2 = tr ++ [EvHttp req (http_send W tr req)] ∧
  (∀ body, http_send W tr req = JsonBody body →
     (execute_tool W tool_name parameters tr).1 = Ret (ToolSuccess tool_name body)) ∧
  (∀ err, http_send W tr req = RequestException err →
     (execute_tool W tool_name parameters tr).1 = Ret (ToolFailure tool_name err)).
Proof.
  intros Hd Hn req. destruct (catalogue_post _ _ Hd Hn) as [Hm Hp].
  assert (substitute_address tool_def parameters = Ret (endpoint tool_def, parameters)) as Hs
    by (unfold substitute_address; by rewrite Hp).
  rewrite (execute_tool_known W _ _ _ _ tr Hd Hs).
  unfold request_of. rewrite Hm. simpl. fold req.
  split; [done|]. split; intros ? ->; done.
Qed.

Lemma post_tools_send_parameters_unchanged_witness :
  let parameters := JList [JStr "0xabc"; JInt 5] in
  let req := {| verb := "POST"; url := endpoint airdrop_def; payload := Some parameters |} in
  (execute_tool timeout_world "airdrop" parameters []).2
  = [] ++ [EvHttp req (http_send timeout_world [] req)] ∧
  (∀ body, http_send timeout_world [] req = JsonBody body →
     (execute_tool timeout_world "airdrop" parameters []).1
     = Ret (ToolSuccess "airdrop" body)) ∧
  (∀ err, http_send timeout_world [] req = RequestException err →
     (execute_tool timeout_world "airdrop" parameters []).1
     = Ret (ToolFailure "airdrop" err)).
Proof.
  apply (post_tools_send_parameters_unchanged timeout_world "airdrop" airdrop_def
           (JList [JStr "0xabc"; JInt 5]) []).
  - vm_compute. reflexivity.
  - discriminate.
Defined.

Lemma str_app_nil_r (s : string) : s +:+ "" = s.
Proof.
  induction s as [|a s IH]; [done|].
  change (String a (s +:+ "") = String a s). by rewrite IH.
Qed.

Lemma balance_url address :
  str_replace "{address}" address (endpoint get_balance_def)
  = backend +:+ "/balance/" +:+ address.
Proof.
  transitivity (backend +:+ "/balance/" +:+ (address +:+ "")).
  - vm_compute. reflexivity.
  - by rewrite str_app_nil_r.
Qed.

(** X9. For [get_balance] with an object whose [address] is a string, the
    request is a GET without payload on the balance endpoint followed by the
    address exactly as given: the text is neither checked nor escaped,
    whatever characters it holds. *)
Theorem balance_request_appends_address (W : World) (d : gmap string json)
    (address : string) (tr : list Event) :
  d !! "address" = Some (JStr address) →
  let req := {| verb := "GET"; url := backend +:+ "/balance/" +:+ address;
                payload := None |} in
  execute_tool W "get_balance" (JDict d) tr
  = (Ret (result_of "get_balance" (http_send W tr req)),
     tr ++ [EvHttp req (http_send W tr req)]).
Proof.
  intros Ha req.
  assert (substitute_address get_balance_def (JDict d)
          = Ret (backend +:+ "/balance/" +:+ address, JDict ∅)) as Hs.
  { unfold substitute_address.
    replace (str_contains "{address}" (endpoint get_balance_def)) with true
      by (by vm_compute).
    unfold py_contains, py_getitem, obind.
    rewrite Ha, bool_decide_eq_true_2 by eauto. unfold py_replace.
    by rewrite balance_url. }
  by rewrite (execute_tool_known W "get_balance" get_balance_def _ _ tr eq_refl Hs).
Qed.

Lemma balance_request_appends_address_witness :
  let req := {| verb := "GET"; url := backend +:+ "/balance/" +:+ "../transfer?x={address}";
                payload := None |} in
  execute_tool insistent_world "get_balance"
    (JDict {[ "address" := JStr "../transfer?x={address}" ]}) []
  = (Ret (result_of "get_balance" (http_send insistent_world [] req)),
     [] ++ [EvHttp req (http_send insistent_world [] req)]).
Proof.
  apply (balance_request_appends_address insistent_world
           {[ "address" := JStr "../transfer?x={address}" ]} "../transfer?x={address}" []).
  vm_compute. reflexivity.
Defined.

(** X10. For [get_balance] with an object that has no [address], nothing is
    substituted and nothing is raised: the GET goes to the endpoint with the
    placeholder still in its path. *)
Theorem balance_request_without_address (W : World) (d : gmap string json)
    (tr : list Event) :
  d !! "address" = None →
  let req := {| verb := "GET"; url := backend +:+ "/balance/{address}";
                payload := None |} in
  execute_tool W "get_balance" (JDict d) tr
  = (Ret (result_of "get_balance" (http_send W tr req)),
     tr ++ [EvHttp req (http_send W tr req)]).
Proof.
  intros Ha req.
  assert (substitute_address get_balance_def (JDict d)
          = Ret (backend +:+ "/balance/{address}", JDict d)) as Hs.
  { unfold substitute_address.
    replace (str_contains "{address}" (endpoint get_balance_def)) with true
      by (by vm_compute).
    unfold py_contains, obind. rewrite Ha.
    rewrite bool_decide_eq_false_2; [done|]. by intros [? ?]. }
  by rewrite (execute_tool_known W "get_balance" get_balance_def _ _ tr eq_refl Hs).
Qed.

Lemma balance_request_without_address_witness :
  let req := {| verb := "GET"; url := backend +:+ "/balance/{address}";
                payload := None |} in
  execute_tool insistent_world "get_balance" (JDict {[ "wallet" := JStr "0xabc" ]}) []
  = (Ret (result_of "get_balance" (http_send insistent_world [] req)),
     [] ++ [EvHttp req (http_send insistent_world [] req)]).
Proof.
  apply (balance_request_without_address insistent_world {[ "wallet" := JStr "0xabc" ]} []).
  vm_compute. reflexivity.
Defined.

(** ** The private key (lines 372-375) *)

Lemma keyless_tools_known tool_name :
  tool_name ∈ keyless_tools →
  ∃ tool_def, TOOL_DEFINITIONS !! tool_name = Some tool_def ∧
              has_property "privateKey" tool_def = false.
Proof.
  unfold keyless_tools. intros H.
  repeat (apply elem_of_cons in H as [->|H]; [eexists; split; by vm_compute|]).
  by apply elem_of_nil in H.
Qed.

(** X11. The driver leaves the model's arguments exactly as they are when
    the caller supplied no secret or an empty one, when the tool is one of
    [get_balance], [fetch_price] and [wallet_analytics], which declare no
    [privateKey], or when the tool is in the catalogue and the arguments are
    an object that already has a [privateKey]: a key the model chose is never
    overwritten by the caller's. *)
Theorem private_key_is_not_added (pk : option string) (tool_name : string) (args : json) :
  truthy pk = false ∨
  tool_name ∈ keyless_tools ∨
  is_Some (TOOL_DEFINITIONS !! tool_name) ∧ is_Some (field "privateKey" args) →
  add_private_key pk tool_name args = Ret args.
Proof.
  unfold add_private_key. intros [Hpk|H].
  { by destruct pk as [[|a s]|]. }
  destruct pk as [[|a s]|]; [done| |done]. simpl.
  destruct H as [(d & -> & ->)%keyless_tools_known|[[d ->] [v Hv]]]; [done|].
  destruct (has_property "privateKey" d); [|done].
  destruct args as [| | | | | |m]; try done. simpl in *.
  rewrite bool_decide_eq_true_2 by eauto. done.
Qed.

Lemma private_key_is_not_added_witness :
  add_private_key (Some "0xsecret") "transfer" (JDict {[ "privateKey" := JStr "0xmodel" ]})
  = Ret (JDict {[ "privateKey" := JStr "0xmodel" ]}).
Proof.
  apply private_key_is_not_added. right. right. split.
  - vm_compute. eauto.
  - vm_compute. eauto.
Defined.

(** X12. When the caller supplied a non-empty secret, the tool is a catalogue
    tool other than those three and the arguments are an object without a
    [privateKey], the secret is added under that key and every other field
    of the arguments keeps its value. *)
Theorem private_key_is_added (secret tool_name : string) (tool_def : ToolDef)
    (d : gmap string json) :
  secret ≠ "" →
  TOOL_DEFINITIONS !! tool_name = Some tool_def →
  tool_name ∉ keyless_tools →
  d !! "privateKey" = None →
  ∃ d', add_private_key (Some secret) tool_name (JDict d) = Ret (JDict d') ∧
        d' !! "privateKey" = Some (JStr secret) ∧
        ∀ k, k ≠ "privateKey" → d' !! k = d !! k.
Proof.
  intros Hs Hd Hk Hn. exists (<["privateKey" := JStr secret]> d). split; [|split].
  - unfold add_private_key. destruct secret as [|a s]; [done|]. simpl.
    rewrite Hd, (catalogue_keyless _ _ Hd), bool_decide_eq_true_2 by done.
    simpl. rewrite Hn. rewrite bool_decide_eq_false_2; [done|]. by intros [? ?].
  - apply lookup_insert_eq.
  - intros k Hk'. by apply lookup_insert_ne.
Qed.

Lemma private_key_is_added_witness :
  ∃ d', add_private_key (Some "0xsecret") "swap" (JDict {[ "tokenIn" := JStr "0xaaa" ]})
        = Ret (JDict d') ∧
        d' !! "privateKey" = Some (JStr "0xsecret") ∧
        ∀ k, k ≠ "privateKey" → d' !! k = ({[ "tokenIn" := JStr "0xaaa" ]} : gmap string json) !! k.
Proof.
  apply (private_key_is_added "0xsecret" "swap" swap_def).
  - discriminate.
  - vm_compute. reflexivity.
  - intros H. apply (bool_decide_pack _) in H. vm_compute in H. destruct H.
  - vm_compute. reflexivity.
Defined.

(** X13. Adding the key fails in two cases only, both with a non-empty
    secret: with [KeyError] when the model names a tool the catalogue does
    not have, and with [TypeError] when the tool declares a [privateKey] and
    the decoded arguments are not an object. *)
Theorem add_private_key_raises_only (pk : option string) (tool_name : string)
    (args : json) (e : exn) :
  add_private_key pk tool_name args = Raise e →
  truthy pk = true ∧
  ((TOOL_DEFINITIONS !! tool_name = None ∧ e = KeyError tool_name) ∨
   (is_Some (TOOL_DEFINITIONS !! tool_name) ∧ (tool_name ∉ keyless_tools) ∧
    e = TypeError ∧ ∀ d, args ≠ JDict d)).
Proof.
  unfold add_private_key. destruct pk as [[|a s]|]; [done| |done]. simpl.
  intros H. split; [done|].
  destruct (TOOL_DEFINITIONS !! tool_name) as [tool_def|] eqn:Hd;
    [|left; split; [done|congruence]].
  right. rewrite (catalogue_keyless _ _ Hd) in H.
  case_bool_decide as Hk; [|done].
  destruct args as [| | | |t|l|d]; simpl in H;
    try (injection H as <-; repeat split; eauto; done).
  - destruct (str_contains "privateKey" t); [done|]. simpl in H.
    injection H as <-. repeat split; eauto; done.
  - destruct (existsb (is_JStr "privateKey") l); [done|]. simpl in H.
    injection H as <-. repeat split; eauto; done.
  - by case_bool_decide.
Qed.

Lemma add_private_key_raises_only_witness :
  truthy (Some "0xsecret") = true ∧
  ((TOOL_DEFINITIONS !! "bridge" = None ∧ KeyError "bridge" = KeyError "bridge") ∨
   (is_Some (TOOL_DEFINITIONS !! "bridge") ∧ ("bridge" ∉ keyless_tools) ∧
    KeyError "bridge" = TypeError ∧ ∀ d, JDict ∅ ≠ JDict d)).
Proof.
  apply (add_private_key_raises_only (Some "0xsecret") "bridge" (JDict ∅) (KeyError "bridge")).
  vm_compute. reflexivity.
Defined.

(** ** Exceptions inside a batch *)

Lemma conversation_loop_call_raises W openai_tools tool_flow private_key n st st1 tr tr1 tr2
    m pre post tc e :
  chat_completions_create W tr (chat_request openai_tools (messages st)) = ProviderReply m →
  am_tool_calls m = pre ++ tc :: post →
  for_each (handle_tool_call W private_key) pre
    (push_message (AssistantMsg (am_content m) (am_tool_calls m)) st)
    (tr ++ [EvChat (chat_request openai_tools (messages st)) (ProviderReply m)])
  = (Ret st1, tr1) →
  handle_tool_call W private_key st1 tc tr1 = (Raise e, tr2) →
  conversation_loop W openai_tools tool_flow private_key (S n) st tr = (Raise e, tr2).
Proof.
  intros Hc Hb Hpre Hcall.
  rewrite (conversation_loop_batch W _ _ _ _ _ _ _ Hc); [|rewrite Hb; by destruct pre].
  erewrite bind_raise_eq; [done|].
  rewrite Hb at 1. rewrite for_each_app, (bind_ret_eq _ _ _ _ _ Hpre). simpl.
  by erewrite bind_raise_eq.
Qed.

(** X14. When the model asks for a tool the catalogue does not have, with
    arguments that decode, the conversation ends there with an exception and
    without an HTTP request for that call: [KeyError] from the look-up of the
    tool's parameters if the caller supplied a non-empty secret, [ValueError]
    from [execute_tool] otherwise.  The rest of the batch is not run. *)
Theorem unknown_model_tool_aborts (W : World) (openai_tools : list FunctionSchema)
    (tool_flow : gmap string string) (private_key : option string) (n : nat)
    (st st1 : LoopState) (tr tr1 : list Event) (m : AssistantMessage)
    (pre post : list ToolCall) (tc : ToolCall) (args : json) :
  chat_completions_create W tr (chat_request openai_tools (messages st)) = ProviderReply m →
  am_tool_calls m = pre ++ tc :: post →
  for_each (handle_tool_call W private_key) pre
    (push_message (AssistantMsg (am_content m) (am_tool_calls m)) st)
    (tr ++ [EvChat (chat_request openai_tools (messages st)) (ProviderReply m)])
  = (Ret st1, tr1) →
  json_loads W (tc_arguments tc) = Some args →
  TOOL_DEFINITIONS !! tc_name tc = None →
  conversation_loop W openai_tools tool_flow private_key (S n) st tr
  = (Raise (if truthy private_key
            then KeyError (tc_name tc)
            else ValueError ("Unknown tool: " +:+ tc_name tc)), tr1).
Proof.
  intros Hc Hb Hpre Hj Hu.
  eapply conversation_loop_call_raises; [done..|].
  destruct (truthy private_key) eqn:Hpk.
  - apply handle_tool_call_unresolved. unfold resolved_parameters, loads.
    rewrite Hj. simpl. unfold add_private_key.
    destruct private_key as [[|a s]|]; [done| |done]. simpl. by rewrite Hu.
  - rewrite (handle_tool_call_resolved W _ _ _ _ args).
    + erewrite bind_raise_eq; [done|]. unfold execute_tool. by rewrite Hu.
    + unfold resolved_parameters, loads. rewrite Hj. simpl.
      unfold add_private_key. by destruct private_key as [[|a s]|].
Qed.

Lemma unknown_model_tool_aborts_witness :
  conversation_loop bridging_world [] ∅ (Some "0xsecret") 10 (fresh_state "Bridge it.") []
  = (Raise (if truthy (Some "0xsecret")
            then KeyError "bridge"
            else ValueError ("Unknown tool: " +:+ "bridge")),
     [] ++ [EvChat (chat_request [] (messages (fresh_state "Bridge it.")))
              (ProviderReply bridge_turn)]).
Proof.
  apply (unknown_model_tool_aborts bridging_world [] ∅ (Some "0xsecret") 9
           (fresh_state "Bridge it.")
           (push_message (AssistantMsg None (am_tool_calls bridge_turn))
              (fresh_state "Bridge it."))
           [] _ bridge_turn [] [] (call "call_1" "bridge" balance_args)
           (object_value balance_args)).
  - vm_compute. reflexivity.
  - reflexivity.
  - reflexivity.
  - vm_compute. reflexivity.
  - vm_compute. reflexivity.
Defined.

(** ** What the provider is sent *)

Lemma chat_histories_app evs1 evs2 :
  chat_histories (evs1 ++ evs2) = chat_histories evs1 ++ chat_histories evs2.
Proof. unfold chat_histories. apply omap_app. Qed.

Lemma chat_histories_http evs :
  Forall (λ ev, is_chat ev = false) evs → chat_histories evs = [].
Proof.
  induction 1 as [|ev evs Hev _ IH]; [done|].
  destruct ev; [done|]. exact IH.
Qed.

Lemma for_each_handle_prefix W pk batch st tr st' tr' :
  for_each (handle_tool_call W pk) batch st tr = (Ret st', tr') →
  messages st `prefix_of` messages st'.
Proof.
  intros (calls & ress & evs & _ & _ & Hm & _)%for_each_handle_ret.
  rewrite Hm. by eexists.
Qed.

Lemma continue_flow_prefix tool_flow st st' :
  continue_flow tool_flow st = Ret st' → messages st `prefix_of` messages st'.
Proof.
  unfold continue_flow. destruct (last (all_tool_calls st)) as [c|]; [|done].
  destruct (tool_flow !! call_tool c); intros [= <-]; [by eexists|done].
Qed.

(** Every provider request of the loop is built by [chat_request] from the
    same tools, its history extends the history the loop started with, and
    the histories of later requests extend those of earlier ones. *)
Lemma conversation_loop_requests W openai_tools tool_flow private_key n st tr :
  ∃ evs,
    (conversation_loop W openai_tools tool_flow private_key n st tr).2 = tr ++ evs ∧
    Forall (λ ev, ∀ req out, ev = EvChat req out →
                  req = chat_request openai_tools (req_messages req)) evs ∧
    Forall (λ h, messages st `prefix_of` h) (chat_histories evs) ∧
    ∀ i j h1 h2, (i ≤ j)%nat →
                 chat_histories evs !! i = Some h1 → chat_histories evs !! j = Some h2 →
                 h1 `prefix_of` h2.
Proof.
  revert st tr. induction n as [|n IH]; intros st tr.
  { exists []. rewrite app_nil_r. repeat split; [constructor..|]. by intros [|?] ? ? ?. }
  set (req0 := chat_request openai_tools (messages st)).
  assert (∀ out evs1 evs2,
            Forall (λ ev, is_chat ev = false) evs1 →
            Forall (λ ev, ∀ req out, ev = EvChat req out →
                          req = chat_request openai_tools (req_messages req)) evs2 →
            Forall (λ h, messages st `prefix_of` h) (chat_histories evs2) →
            (∀ i j h1 h2, (i ≤ j)%nat →
               chat_histories evs2 !! i = Some h1 → chat_histories evs2 !! j = Some h2 →
               h1 `prefix_of` h2) →
            Forall (λ ev, ∀ req out, ev = EvChat req out →
                          req = chat_request openai_tools (req_messages req))
              (EvChat req0 out :: evs1 ++ evs2) ∧
            Forall (λ h, messages st `prefix_of` h)
              (chat_histories (EvChat req0 out :: evs1 ++ evs2)) ∧
            ∀ i j h1 h2, (i ≤ j)%nat →
               chat_histories (EvChat req0 out :: evs1 ++ evs2) !! i = Some h1 →
               chat_histories (EvChat req0 out :: evs1 ++ evs2) !! j = Some h2 →
               h1 `prefix_of` h2) as Hglue.
  { intros out evs1 evs2 H1 H2 H3 H4.
    assert (chat_histories (EvChat req0 out :: evs1 ++ evs2)
            = messages st :: chat_histories evs2) as ->.
    { change (EvChat req0 out :: evs1 ++ evs2) with ([EvChat req0 out] ++ evs1 ++ evs2).
      by rewrite !chat_histories_app, (chat_histories_http evs1 H1). }
    repeat split.
    - constructor; [by intros ? ? [= <- <-]|]. apply Forall_app. split; [|done].
      eapply Forall_impl; [exact H1|]. intros ev Hev req out' ->. done.
    - by constructor.
    - intros [|i] [|j] h1 h2 Hij Hi Hj; simpl in *.
      + by injection Hi as <-; injection Hj as <-.
      + injection Hi as <-. eapply Forall_lookup_1 in H3; [exact H3|exact Hj].
      + lia.
      + eapply (H4 i j); [lia|done..]. }
  destruct (chat_completions_create W tr req0) as [msg|m] eqn:Hc.
  - rewrite (conversation_loop_raises W _ _ _ _ _ _ _ Hc).
    exists ([EvChat req0 (ProviderRaises msg)] ++ [] ++ []). split; [done|].
    apply (Hglue _ [] []); [constructor..|]. by intros [|?] ? ? ?.
  - destruct (decide (am_tool_calls m = [])) as [Hb|Hb].
    + rewrite (conversation_loop_answer W _ _ _ _ _ _ _ Hc Hb).
      exists ([EvChat req0 (ProviderReply m)] ++ [] ++ []). split; [done|].
      apply (Hglue _ [] []); [constructor..|]. by intros [|?] ? ? ?.
    + rewrite (conversation_loop_batch W _ _ _ _ _ _ _ Hc Hb). fold req0.
      destruct (for_each_handle_trace W private_key (am_tool_calls m)
                  (push_message (AssistantMsg (am_content m) (am_tool_calls m)) st)
                  (tr ++ [EvChat req0 (ProviderReply m)]))
        as (evs1 & Htr1 & Hevs1).
      destruct (for_each (handle_tool_call W private_key) (am_tool_calls m)
                  (push_message (AssistantMsg (am_content m) (am_tool_calls m)) st)
                  (tr ++ [EvChat req0 (ProviderReply m)]))
        as [[st1|e] tr1] eqn:Hfe; simpl in Htr1; subst tr1.
      * rewrite (bind_ret_eq _ _ _ _ _ Hfe). unfold bind, lift.
        destruct (continue_flow tool_flow st1) as [st2|e] eqn:Hf.
        -- destruct (IH st2 ((tr ++ [EvChat req0 (ProviderReply m)]) ++ evs1))
             as (evs2 & -> & H2 & H3 & H4).
           exists (EvChat req0 (ProviderReply m) :: evs1 ++ evs2).
           rewrite <- !app_assoc. split; [done|].
           apply Hglue; [done..| |done].
           eapply Forall_impl; [exact H3|]. intros h Hh.
           etrans; [|exact Hh].
           etrans; [|by eapply continue_flow_prefix].
           etrans; [|by eapply for_each_handle_prefix]. by eexists.
        -- exists (EvChat req0 (ProviderReply m) :: evs1 ++ []).
           rewrite app_nil_r, <- !app_assoc. split; [done|].
           rewrite <- (app_nil_r evs1). apply Hglue; [done|constructor..|].
           by intros [|?] ? ? ?.
      * rewrite (bind_raise_eq _ _ _ _ _ Hfe).
        exists (EvChat req0 (ProviderReply m) :: evs1 ++ []).
        rewrite app_nil_r, <- !app_assoc. split; [done|].
        rewrite <- (app_nil_r evs1). apply Hglue; [done|constructor..|].
        by intros [|?] ? ? ?.
Qed.

Lemma chat_history_elem req out evs :
  EvChat req out ∈ evs → req_messages req ∈ chat_histories evs.
Proof.
  intros H. unfold chat_histories. apply list_elem_of_omap.
  by exists (EvChat req out).
Qed.

Lemma with_key_context_holds_secret secret system_prompt :
  secret ≠ "" →
  str_contains secret (with_key_context (Some secret) system_prompt) = true.
Proof.
  intros Hs. unfold with_key_context. destruct secret as [|a s]; [done|]. simpl truthy.
  cbv iota. do 4 apply str_contains_app_r.
  rewrite <- (str_app_nil_r (String a s)) at 2. apply str_contains_self.
Qed.

(** X15. Every request that [process_agent_conversation] sends to the
    provider offers the same tools, those of [get_openai_tools], and opens
    with the same two messages: the system prompt and the user's message.
    When the caller supplied a non-empty secret, that system prompt ends with
    the secret, so the secret goes to the provider with every call; without
    one the prompt is sent as it was given. *)
Theorem provider_requests_carry_prompt_and_key (W : World)
    (system_prompt user_message : string) (available_tools : list string)
    (tool_flow : gmap string string) (private_key : option string)
    (max_iterations : Z) (tr : list Event) :
  ∃ evs,
    (process_agent_conversation W system_prompt user_message available_tools
       tool_flow private_key max_iterations tr).2 = tr ++ evs ∧
    (∀ req out, EvChat req out ∈ evs →
       req = chat_request (get_openai_tools available_tools) (req_messages req) ∧
       ∃ rest, req_messages req
               = SystemMsg (with_key_context private_key system_prompt)
                 :: UserMsg user_message :: rest) ∧
    (∀ secret, private_key = Some secret → secret ≠ "" →
       str_contains secret (with_key_context private_key system_prompt) = true) ∧
    (truthy private_key = false →
       with_key_context private_key system_prompt = system_prompt).
Proof.
  unfold process_agent_conversation.
  destruct (conversation_loop_requests W (get_openai_tools available_tools) tool_flow
              private_key (Z.to_nat max_iterations)
              {| messages := [SystemMsg (with_key_context private_key system_prompt);
                              UserMsg user_message];
                 all_tool_calls := []; all_tool_results := [] |} tr)
    as (evs & Htr & Hreq & Hpre & _).
  exists evs. split; [exact Htr|]. repeat split.
  - eapply Forall_forall in Hreq; [|done]. by eapply Hreq.
  - apply chat_history_elem in H.
    eapply Forall_forall in Hpre as [rest ->]; [|done]. by exists rest.
  - intros secret -> Hs. by apply with_key_context_holds_secret.
  - unfold with_key_context. by destruct private_key as [[|a s]|].
Qed.

Lemma provider_requests_carry_prompt_and_key_witness :
  ∃ req out rest,
    (process_agent_conversation transfer_world "You are an agent." "Send 5 tokens."
       ["transfer"] ∅ (Some "0xsecret") 10 []).2 !! 2%nat = Some (EvChat req out) ∧
    req = chat_request (get_openai_tools ["transfer"]) (req_messages req) ∧
    req_messages req
    = SystemMsg (with_key_context (Some "0xsecret") "You are an agent.")
      :: UserMsg "Send 5 tokens." :: rest ∧
    str_contains "0xsecret" (with_key_context (Some "0xsecret") "You are an agent.") = true.
Proof.
  destruct (provider_requests_carry_prompt_and_key transfer_world "You are an agent."
              "Send 5 tokens." ["transfer"] ∅ (Some "0xsecret") 10 [])
    as (evs & Htr & Hreq & Hkey & _).
  assert (∃ req out, evs !! 2%nat = Some (EvChat req out)) as (req & out & Hev).
  { rewrite <- (app_nil_l evs), <- Htr. eexists _, _. vm_compute. reflexivity. }
  destruct (Hreq req out) as (Hr & rest & Hm).
  { by eapply list_elem_of_lookup_2. }
  exists req, out, rest. split; [|split; [exact Hr|split; [exact Hm|]]].
  - rewrite Htr. exact Hev.
  - apply (Hkey "0xsecret" eq_refl). discriminate.
Defined.

(** X16. Within one conversation the history only grows: what the provider
    was sent in one call is sent again, unchanged and in the same order, at
    the head of every later call.  Nothing is ever dropped from the history
    or rewritten in it, however long it gets. *)
Theorem provider_history_only_grows (W : World)
    (system_prompt user_message : string) (available_tools : list string)
    (tool_flow : gmap string string) (private_key : option string)
    (max_iterations : Z) (tr : list Event) :
  ∃ evs,
    (process_agent_conversation W system_prompt user_message available_tools
       tool_flow private_key max_iterations tr).2 = tr ++ evs ∧
    ∀ i j h1 h2, (i ≤ j)%nat →
      chat_histories evs !! i = Some h1 →
      chat_histories evs !! j = Some h2 →
      h1 `prefix_of` h2.
Proof.
  unfold process_agent_conversation.
  destruct (conversation_loop_requests W (get_openai_tools available_tools) tool_flow
              private_key (Z.to_nat max_iterations)
              {| messages := [SystemMsg (with_key_context private_key system_prompt);
                              UserMsg user_message];
                 all_tool_calls := []; all_tool_results := [] |} tr)
    as (evs & Htr & _ & _ & Hmono).
  by exists evs.
Qed.

Lemma provider_history_only_grows_witness :
  ∃ h1 h2,
    chat_histories
      (process_agent_conversation two_turn_world "" "Pay and check."
         ["transfer"; "get_balance"] ∅ None 10 []).2 !! 0%nat = Some h1 ∧
    chat_histories
      (process_agent_conversation two_turn_world "" "Pay and check."
         ["transfer"; "get_balance"] ∅ None 10 []).2 !! 2%nat = Some h2 ∧
    length h1 = 2 ∧ length h2 = 7 ∧
    h1 `prefix_of` h2.
Proof.
  destruct (provider_history_only_grows two_turn_world "" "Pay and check."
              ["transfer"; "get_balance"] ∅ None 10 []) as (evs & Htr & Hmono).
  rewrite Htr, app_nil_l.
  assert (∃ h1 h2, chat_histories evs !! 0%nat = Some h1 ∧
                   chat_histories evs !! 2%nat = Some h2 ∧
                   length h1 = 2 ∧ length h2 = 7) as (h1 & h2 & H1 & H2 & L1 & L2).
  { rewrite <- (app_nil_l evs), <- Htr. eexists _, _.
    repeat split; vm_compute; reflexivity. }
  exists h1, h2. repeat split; [done..|].
  apply (Hmono 0%nat 2%nat h1 h2); [lia|done..].
Defined.

(** ** How a conversation ends *)

Lemma provider_calls_chat req out evs :
  provider_calls (EvChat req out :: evs) = S (provider_calls evs).
Proof. unfold provider_calls. by rewrite filter_cons_True. Qed.

Lemma conversation_loop_ends W openai_tools tool_flow private_key n st tr r tr' :
  conversation_loop W openai_tools tool_flow private_key n st tr = (Ret r, tr') →
  ∃ evs,
    tr' = tr ++ evs ∧
    ((∃ evs0 req m,
        evs = evs0 ++ [EvChat req (ProviderReply m)] ∧
        am_tool_calls m = [] ∧ cr_agent_response r = am_content m) ∨
     (provider_calls evs = n ∧
      cr_agent_response r = Some max_iterations_notice ∧
      ∀ req out, EvChat req out ∈ evs →
                 ∃ m, out = ProviderReply m ∧ am_tool_calls m ≠ [])).
Proof.
  revert st tr r tr'. induction n as [|n IH]; intros st tr r tr'.
  { intros [= <- <-]. exists []. rewrite app_nil_r. split; [done|]. right.
    repeat split. intros req out H. by apply elem_of_nil in H. }
  destruct (chat_completions_create W tr (chat_request openai_tools (messages st)))
    as [msg|m] eqn:Hc; [by rewrite (conversation_loop_raises W _ _ _ _ _ _ _ Hc)|].
  destruct (decide (am_tool_calls m = [])) as [Hb|Hb].
  - rewrite (conversation_loop_answer W _ _ _ _ _ _ _ Hc Hb). intros [= <- <-].
    eexists. split; [done|]. left. by eexists [], _, m.
  - rewrite (conversation_loop_batch W _ _ _ _ _ _ _ Hc Hb).
    intros (st1 & tr1 & H1 & H2)%bind_ret_inv.
    apply bind_ret_inv in H2 as (st2 & tr2 & [Hf ->]%lift_ret_inv & H2).
    destruct (for_each_handle_trace W private_key (am_tool_calls m)
                (push_message (AssistantMsg (am_content m) (am_tool_calls m)) st)
                (tr ++ [EvChat (chat_request openai_tools (messages st)) (ProviderReply m)]))
      as (evs1 & Htr1 & Hevs1).
    rewrite H1 in Htr1. simpl in Htr1. subst tr1.
    apply IH in H2 as (evs2 & -> & Hend).
    exists (EvChat (chat_request openai_tools (messages st)) (ProviderReply m)
            :: evs1 ++ evs2).
    rewrite <- !app_assoc. split; [done|].
    destruct Hend as [(evs0 & req & m' & -> & Hb' & Hr)|(Hn & Hr & Hall)].
    + left. exists (EvChat (chat_request openai_tools (messages st)) (ProviderReply m)
                    :: evs1 ++ evs0), req, m'.
      repeat split; [|done..]. simpl. by rewrite <- app_assoc.
    + right. repeat split; [|done|].
      * rewrite provider_calls_chat, provider_calls_app,
          (provider_calls_http evs1 Hevs1), Hn. done.
      * intros req out [[= -> ->]|Hin]%elem_of_cons; [by exists m|].
        apply elem_of_app in Hin as [Hin|Hin]; [|by eapply Hall].
        eapply Forall_forall in Hevs1; [|exact Hin]. done.
Qed.

(** X17. A conversation returns in one of two ways.  Either the last thing
    that happened is a provider reply without tool calls, and the answer is
    the content of that reply; or the budget is used up: exactly
    [max_iterations] provider calls were made, every one of them was answered
    with a request for tools, and the answer is the notice.  The notice is
    never produced before the budget is spent. *)
Theorem conversation_returns_answer_or_spent_budget (W : World)
    (system_prompt user_message : string) (available_tools : list string)
    (tool_flow : gmap string string) (private_key : option string)
    (max_iterations : Z) (tr tr' : list Event) (r : ConversationResult) :
  process_agent_conversation W system_prompt user_message available_tools
    tool_flow private_key max_iterations tr = (Ret r, tr') →
  ∃ evs,
    tr' = tr ++ evs ∧
    ((∃ evs0 req m,
        evs = evs0 ++ [EvChat req (ProviderReply m)] ∧
        am_tool_calls m = [] ∧ cr_agent_response r = am_content m) ∨
     (provider_calls evs = Z.to_nat max_iterations ∧
      cr_agent_response r = Some max_iterations_notice ∧
      ∀ req out, EvChat req out ∈ evs →
                 ∃ m, out = ProviderReply m ∧ am_tool_calls m ≠ [])).
Proof. unfold process_agent_conversation. apply conversation_loop_ends. Qed.

Lemma conversation_returns_answer_or_spent_budget_witness :
  ∃ r tr',
    process_agent_conversation insistent_world "" "What is my balance?"
      ["get_balance"] ∅ None 3 [] = (Ret r, tr') ∧
    ∃ evs,
      tr' = [] ++ evs ∧
      ((∃ evs0 req m,
          evs = evs0 ++ [EvChat req (ProviderReply m)] ∧
          am_tool_calls m = [] ∧ cr_agent_response r = am_content m) ∨
       (provider_calls evs = Z.to_nat 3 ∧
        cr_agent_response r = Some max_iterations_notice ∧
        ∀ req out, EvChat req out ∈ evs →
                   ∃ m, out = ProviderReply m ∧ am_tool_calls m ≠ [])).
Proof.
  eexists _, _. split; [vm_compute; reflexivity|].
  apply (conversation_returns_answer_or_spent_budget insistent_world ""
           "What is my balance?" ["get_balance"] ∅ None 3 []).
  vm_compute. reflexivity.
Defined.

(** ** HTTP requests and tool calls *)

Lemma http_exchanges_length evs : (length (http_exchanges evs) ≤ length evs)%nat.
Proof.
  induction evs as [|[req out|req out] evs IH]; [done| |].
  - change (length (http_exchanges evs) ≤ S (length evs))%nat. lia.
  - change (S (length (http_exchanges evs)) ≤ S (length evs))%nat. lia.
Qed.

Lemma execute_tool_events W tool_name parameters tr :
  ∃ evs, (execute_tool W tool_name parameters tr).2 = tr ++ evs ∧
         (length evs ≤ 1)%nat ∧ requested evs = [].
Proof.
  unfold execute_tool.
  destruct (TOOL_DEFINITIONS !! tool_name) as [d|] eqn:Hd;
    [|exists []; rewrite app_nil_r; repeat split; simpl; lia].
  destruct (substitute_address d parameters) as [target|e] eqn:Hs.
  - rewrite (bind_ret_eq _ _ tr target tr); [|done].
    rewrite dispatch_known; [|by eapply catalogue_methods].
    eexists [_]. repeat split; simpl; lia.
  - rewrite (bind_raise_eq _ _ tr e tr); [|done].
    exists []. rewrite app_nil_r. repeat split; simpl; lia.
Qed.

Lemma handle_tool_call_events W pk st tc tr :
  ∃ evs, (handle_tool_call W pk st tc tr).2 = tr ++ evs ∧
         (length evs ≤ 1)%nat ∧ requested evs = [].
Proof.
  destruct (resolved_parameters W pk tc) as [params|e] eqn:Hp.
  - rewrite (handle_tool_call_resolved W _ _ _ _ _ Hp). unfold bind.
    destruct (execute_tool_events W (tc_name tc) params tr) as (evs & Htr & Hevs).
    exists evs. split; [|done].
    by destruct (execute_tool W (tc_name tc) params tr) as [[r|e] tr1].
  - rewrite (handle_tool_call_unresolved W _ _ _ _ _ Hp).
    exists []. rewrite app_nil_r. repeat split; simpl; lia.
Qed.

Lemma for_each_handle_events W pk batch st tr :
  ∃ evs, (for_each (handle_tool_call W pk) batch st tr).2 = tr ++ evs ∧
         (length evs ≤ length batch)%nat ∧ requested evs = [].
Proof.
  revert st tr. induction batch as [|tc batch IH]; intros st tr; simpl.
  - exists []. rewrite app_nil_r. repeat split; simpl; lia.
  - destruct (handle_tool_call_events W pk st tc tr) as (evs1 & Htr1 & Hl1 & Hq1).
    unfold bind. destruct (handle_tool_call W pk st tc tr) as [[st1|e] tr1]; simpl in *.
    + destruct (IH st1 tr1) as (evs2 & Htr2 & Hl2 & Hq2).
      exists (evs1 ++ evs2). rewrite Htr2, Htr1, app_assoc, length_app, requested_app.
      rewrite Hq1, Hq2. repeat split; try done; lia.
    + exists evs1. repeat split; try done; lia.
Qed.

Lemma conversation_loop_http_count W openai_tools tool_flow private_key n st tr :
  ∃ evs,
    (conversation_loop W openai_tools tool_flow private_key n st tr).2 = tr ++ evs ∧
    (length (http_exchanges evs) ≤ length (requested evs))%nat.
Proof.
  revert st tr. induction n as [|n IH]; intros st tr.
  { exists []. by rewrite app_nil_r. }
  destruct (chat_completions_create W tr (chat_request openai_tools (messages st)))
    as [msg|m] eqn:Hc.
  { rewrite (conversation_loop_raises W _ _ _ _ _ _ _ Hc). eexists [_].
    split; [done|]. simpl. lia. }
  destruct (decide (am_tool_calls m = [])) as [Hb|Hb].
  { rewrite (conversation_loop_answer W _ _ _ _ _ _ _ Hc Hb). eexists [_].
    split; [done|]. simpl. lia. }
  rewrite (conversation_loop_batch W _ _ _ _ _ _ _ Hc Hb).
  destruct (for_each_handle_events W private_key (am_tool_calls m)
              (push_message (AssistantMsg (am_content m) (am_tool_calls m)) st)
              (tr ++ [EvChat (chat_request openai_tools (messages st)) (ProviderReply m)]))
    as (evs1 & Htr1 & Hl1 & Hq1).
  assert (∀ evs2, (length (http_exchanges evs2) ≤ length (requested evs2))%nat →
            (length (http_exchanges
                       (EvChat (chat_request openai_tools (messages st))
                          (ProviderReply m) :: evs1 ++ evs2))
             ≤ length (requested
                         (EvChat (chat_request openai_tools (messages st))
                            (ProviderReply m) :: evs1 ++ evs2)))%nat) as Hglue.
  { intros evs2 H2.
    change (EvChat ?a ?b :: ?l) with ([EvChat a b] ++ l).
    rewrite !http_exchanges_app, !requested_app, Hq1, !length_app.
    pose proof (http_exchanges_length evs1).
    unfold requested at 1. simpl. rewrite app_nil_r. lia. }
  destruct (for_each (handle_tool_call W private_key) (am_tool_calls m)
              (push_message (AssistantMsg (am_content m) (am_tool_calls m)) st)
              (tr ++ [EvChat (chat_request openai_tools (messages st)) (ProviderReply m)]))
    as [[st1|e] tr1] eqn:Hfe; simpl in Htr1; subst tr1.
  - rewrite (bind_ret_eq _ _ _ _ _ Hfe). unfold bind, lift.
    destruct (continue_flow tool_flow st1) as [st2|e].
    + destruct (IH st2 ((tr ++ [EvChat (chat_request openai_tools (messages st))
                                  (ProviderReply m)]) ++ evs1)) as (evs2 & -> & H2).
      exists (EvChat (chat_request openai_tools (messages st)) (ProviderReply m)
              :: evs1 ++ evs2).
      rewrite <- !app_assoc. split; [done|]. by apply Hglue.
    + exists (EvChat (chat_request openai_tools (messages st)) (ProviderReply m)
              :: evs1 ++ []).
      rewrite app_nil_r, <- !app_assoc. split; [done|].
      rewrite <- (app_nil_r evs1). by apply Hglue.
  - rewrite (bind_raise_eq _ _ _ _ _ Hfe).
    exists (EvChat (chat_request openai_tools (messages st)) (ProviderReply m)
            :: evs1 ++ []).
    rewrite app_nil_r, <- !app_assoc. split; [done|].
    rewrite <- (app_nil_r evs1). by apply Hglue.
Qed.

(** X18. The driver sends HTTP requests only for tool calls the model asked
    for, and at most one for each: in every run, returning or raising, the
    trace holds no more HTTP exchanges than requested tool calls, and in a
    run that returns it holds exactly one per requested call.  Nothing is
    retried and nothing is called on the driver's own initiative. *)
Theorem one_http_request_per_tool_call (W : World)
    (system_prompt user_message : string) (available_tools : list string)
    (tool_flow : gmap string string) (private_key : option string)
    (max_iterations : Z) (tr : list Event) :
  ∃ evs,
    (process_agent_conversation W system_prompt user_message available_tools
       tool_flow private_key max_iterations tr).2 = tr ++ evs ∧
    (length (http_exchanges evs) ≤ length (requested evs))%nat ∧
    ∀ r, (process_agent_conversation W system_prompt user_message available_tools
            tool_flow private_key max_iterations tr).1 = Ret r →
         length (http_exchanges evs) = length (requested evs).
Proof.
  unfold process_agent_conversation.
  set (st := {| messages := _; all_tool_calls := []; all_tool_results := [] |}).
  set (tools := get_openai_tools available_tools).
  destruct (conversation_loop_http_count W tools tool_flow private_key
              (Z.to_nat max_iterations) st tr) as (evs & Htr & Hle).
  exists evs. repeat split; [done..|].
  intros r Hr.
  destruct (conversation_loop W tools tool_flow private_key _ st tr)
    as [o tr'] eqn:Hrun; simpl in *; subst o tr'.
  apply conversation_loop_ret in Hrun
    as (evs' & calls & ress & ->%app_inv_head & _ & _ & Hl & Hp).
  rewrite (Forall2_length _ _ _ Hl). symmetry. by eapply Forall3_length_lr.
Qed.

Lemma one_http_request_per_tool_call_witness :
  ∃ r evs,
    (process_agent_conversation two_turn_world "" "Pay and check."
       ["transfer"; "get_balance"] ∅ None 10 []).1 = Ret r ∧
    (process_agent_conversation two_turn_world "" "Pay and check."
       ["transfer"; "get_balance"] ∅ None 10 []).2 = [] ++ evs ∧
    length (http_exchanges evs) = length (requested evs).
Proof.
  destruct (one_http_request_per_tool_call two_turn_world "" "Pay and check."
              ["transfer"; "get_balance"] ∅ None 10 []) as (evs & Htr & _ & Heq).
  eexists _, evs. split; [vm_compute; reflexivity|].
  split; [exact Htr|]. eapply Heq. vm_compute. reflexivity.
Defined.

(** ** The endpoint *)

Lemma chat_with_agent_trace W request tr :
  (chat_with_agent W request tr).2 = (chat_with_agent_try W request tr).2.
Proof.
  unfold chat_with_agent. by destruct (chat_with_agent_try W request tr) as [[r|e] tr'].
Qed.

Lemma chat_with_agent_try_valid W request tr :
  (∀ t, t ∈ (compile_flow (tools request)).1 → is_Some (TOOL_DEFINITIONS !! t)) →
  chat_with_agent_try W request tr
  = bind (process_agent_conversation W (build_system_prompt (tools request))
            (user_message request) (elements (compile_flow (tools request)).1)
            (compile_flow (tools request)).2 (private_key request) 10)
         (λ result, lift (make_response result)) tr.
Proof.
  intros Hk. unfold chat_with_agent_try.
  rewrite (bind_ret_eq _ _ tr () tr); [done|].
  unfold lift. f_equal. apply validate_tools_known, Forall_forall.
  intros t Ht. by apply Hk, elem_of_elements.
Qed.

Lemma get_openai_tools_known (tool_names : list string) :
  Forall (λ n, is_Some (TOOL_DEFINITIONS !! n)) tool_names →
  fn_name <$> get_openai_tools tool_names = tool_names.
Proof.
  intros Hall. rewrite get_openai_tools_filter.
  induction Hall as [|n l Hn Hl IH]; [done|].
  rewrite filter_cons_True by done. by f_equal.
Qed.

Lemma empty_request_no_tools conns : (compile_flow conns).1 = ∅ ↔ conns = [].
Proof.
  split; [|by intros ->].
  destruct conns as [|conn conns]; [done|]. intros He.
  assert (tool conn ∈ (compile_flow (conn :: conns)).1) as Hin.
  { apply compile_flow_tools. exists conn. split; [by left|by left]. }
  rewrite He in Hin. by apply not_elem_of_empty in Hin.
Qed.

(** X19. When every tool the request names is in the catalogue, the first
    thing [chat_with_agent] does is a provider call whose history is the
    system prompt of [build_system_prompt] (followed by the key context when
    a secret was supplied) and the user's message.  It offers one function
    per declared tool, with [tool_choice] ["auto"]; if the edge list is
    empty the provider is still called, with neither tools nor tool
    choice. *)
Theorem chat_with_agent_first_request (W : World) (request : AgentRequest)
    (tr : list Event) :
  (∀ t, t ∈ (compile_flow (tools request)).1 → is_Some (TOOL_DEFINITIONS !! t)) →
  ∃ req out rest,
    (chat_with_agent W request tr).2 = tr ++ EvChat req out :: rest ∧
    req_messages req
    = [SystemMsg (with_key_context (private_key request)
                    (build_system_prompt (tools request)));
       UserMsg (user_message request)] ∧
    match req_tools req with
    | Some schemas =>
        fn_name <$> schemas = elements (compile_flow (tools request)).1 ∧
        tools request ≠ [] ∧ req_tool_choice req = Some "auto"
    | None => tools request = [] ∧ req_tool_choice req = None
    end.
Proof.
  intros Hk.
  rewrite chat_with_agent_trace, (chat_with_agent_try_valid W request tr Hk).
  unfold process_agent_conversation. change (Z.to_nat 10) with 10%nat.
  set (st := {| messages := _; all_tool_calls := []; all_tool_results := [] |}).
  set (avail := elements (compile_flow (tools request)).1).
  destruct (conversation_loop_first_event W (get_openai_tools avail)
              (compile_flow (tools request)).2 (private_key request) 9 st tr)
    as (out & rest & Htr).
  exists (chat_request (get_openai_tools avail) (messages st)), out, rest.
  split; [|split; [done|]].
  - unfold bind.
    destruct (conversation_loop W _ _ _ 10 st tr) as [[r|e] tr']; simpl in *; done.
  - assert (fn_name <$> get_openai_tools avail = avail) as Hn.
    { apply get_openai_tools_known, Forall_forall.
      intros t Ht. by apply Hk, elem_of_elements. }
    simpl. destruct (get_openai_tools avail) as [|s l] eqn:Hg.
    + split; [|done]. apply empty_request_no_tools.
      apply leibniz_equiv, elements_empty_inv. fold avail. by rewrite <- Hn.
    + repeat split; [done|]. intros He%empty_request_no_tools.
      subst avail. rewrite He, elements_empty in Hn. done.
Qed.

Lemma chat_with_agent_first_request_witness :
  ∃ req out rest,
    (chat_with_agent insistent_world
       {| tools := []; user_message := "Hello."; private_key := None |} []).2
    = [] ++ EvChat req out :: rest ∧
    req_messages req
    = [SystemMsg (with_key_context None (build_system_prompt [])); UserMsg "Hello."] ∧
    match req_tools req with
    | Some schemas =>
        fn_name <$> schemas = elements (compile_flow ([] : list ToolConnection)).1 ∧
        ([] : list ToolConnection) ≠ [] ∧ req_tool_choice req = Some "auto"
    | None => ([] : list ToolConnection) = [] ∧ req_tool_choice req = None
    end.
Proof.
  apply (chat_with_agent_first_request insistent_world
           {| tools := []; user_message := "Hello."; private_key := None |} []).
  intros t Ht. simpl in Ht. by apply not_elem_of_empty in Ht.
Defined.

(** X20. When every named tool is in the catalogue and the conversation
    returns, the endpoint answers with the returned text and the two logs as
    they are; the conversation history is not part of the response.  If the
    model's final message has no text, the response cannot be built
    ([agent_response] is a required string) and the caller gets status 500,
    although the conversation, tool calls included, was carried out. *)
Theorem endpoint_answers_with_the_logs (W : World) (request : AgentRequest)
    (tr tr' : list Event) (r : ConversationResult) :
  (∀ t, t ∈ (compile_flow (tools request)).1 → is_Some (TOOL_DEFINITIONS !! t)) →
  process_agent_conversation W (build_system_prompt (tools request))
    (user_message request) (elements (compile_flow (tools request)).1)
    (compile_flow (tools request)).2 (private_key request) 10 tr = (Ret r, tr') →
  chat_with_agent W request tr
  = (match cr_agent_response r with
     | Some text => Ret {| agent_response := text;
                           tool_calls := cr_tool_calls r;
                           results := cr_results r |}
     | None => Raise (HTTPException 500 (exn_str W ValidationError))
     end, tr').
Proof.
  intros Hk Hrun. unfold chat_with_agent.
  rewrite (chat_with_agent_try_valid W request tr Hk), (bind_ret_eq _ _ _ _ _ Hrun).
  unfold lift, make_response. by destruct (cr_agent_response r).
Qed.

Lemma endpoint_answers_with_the_logs_witness :
  chat_with_agent mute_world balance_request []
  = (Raise (HTTPException 500 (exn_str mute_world ValidationError)),
     [EvChat (chat_request (get_openai_tools ["get_balance"])
                [SystemMsg (build_system_prompt (tools balance_request));
                 UserMsg "What is my balance?"])
        (ProviderReply {| am_content := None; am_tool_calls := [] |})]).
Proof.
  apply (endpoint_answers_with_the_logs mute_world balance_request [] _
           {| cr_agent_response := None; cr_tool_calls := []; cr_results := [];
              cr_conversation_history :=
                [SystemMsg (build_system_prompt (tools balance_request));
                 UserMsg "What is my balance?"] |}).
  - intros t Ht%elem_of_elements. vm_compute in Ht.
    apply elem_of_cons in Ht as [->|Ht]; [by vm_compute; eauto|].
    by apply elem_of_nil in Ht.
  - vm_compute. reflexivity.
Defined.

(** ** The successor map and the offered tools *)

Lemma compile_flow_entry conns a b :
  (compile_flow conns).2 !! a = Some b →
  ∃ conn, conn ∈ conns ∧ tool conn = a ∧ declared_successor conn = Some b.
Proof.
  rewrite compile_flow_lookup. unfold last_successor.
  intros Hl%last_Some_elem_of. apply list_elem_of_omap in Hl as (conn & Hin & Hc).
  exists conn. case_bool_decide; [done|done].
Qed.

(** X21. Every entry [a → b] of the successor map that [chat_with_agent]
    compiles has a non-empty [b], and both [a] and [b] are among the unique
    tools.  Hence, when the request passes the validation, every tool a
    directive can name is among the functions offered to the model. *)
Theorem flow_successors_are_offered (conns : list ToolConnection) (a b : string) :
  (compile_flow conns).2 !! a = Some b →
  b ≠ "" ∧ a ∈ (compile_flow conns).1 ∧ b ∈ (compile_flow conns).1 ∧
  (validate_tools (elements (compile_flow conns).1) = Ret () →
   a ∈ fn_name <$> get_openai_tools (elements (compile_flow conns).1) ∧
   b ∈ fn_name <$> get_openai_tools (elements (compile_flow conns).1)).
Proof.
  intros (conn & Hin & Ha & Hb)%compile_flow_entry.
  assert (a ∈ (compile_flow conns).1) as Hia.
  { apply compile_flow_tools. exists conn. by split; [|left]. }
  assert (b ∈ (compile_flow conns).1) as Hib.
  { apply compile_flow_tools. exists conn. by split; [|right]. }
  split; [|split; [done|split; [done|]]].
  - intros ->. unfold declared_successor in Hb.
    destruct (next_tool conn) as [[|c s]|]; simpl in Hb; congruence.
  - intros Hv%validate_tools_known.
    rewrite (get_openai_tools_known _ Hv). by rewrite !elem_of_elements.
Qed.

Lemma flow_successors_are_offered_witness :
  (compile_flow (tools transfer_request)).2 !! "transfer" = Some "get_balance" ∧
  "get_balance" ≠ "" ∧
  "transfer" ∈ (compile_flow (tools transfer_request)).1 ∧
  "get_balance" ∈ (compile_flow (tools transfer_request)).1 ∧
  (validate_tools (elements (compile_flow (tools transfer_request)).1) = Ret () →
   "transfer" ∈ fn_name <$> get_openai_tools (elements (compile_flow (tools transfer_request)).1) ∧
   "get_balance" ∈ fn_name <$> get_openai_tools (elements (compile_flow (tools transfer_request)).1)).
Proof.
  split; [vm_compute; reflexivity|].
  apply (flow_successors_are_offered (tools transfer_request) "transfer" "get_balance").
  vm_compute. reflexivity.
Defined.
